(** * CodeAtRandom: embedding cache, vector index and search engine

    A shallow embedding of [src/cache_manager.py], [src/embedder.py],
    [src/utils.py], [src/search_engine.py] and of the request validation
    of [src/api.py], and the properties of the specification stated over
    it.

    Conventions of the model.
    - A Python [str] is the Rocq [string] of its UTF-8 bytes, so
      [text.encode('utf-8')] is the identity; [len] and slices count code
      points; character classes and [lower] are those of ASCII text, and
      what is stated of them is stated of ASCII text.
    - A [float32] stored in the cache is its 32-bit pattern (an [N] below
      [2^32]); a BLOB is a [list byte]; the SQLite table is a finite map
      from [doc_id] to its row, and storage failures are not modelled.
    - Norms and inner products of embeddings are written with real
      numbers, without the rounding of [float32]; the statements use of
      them only what the rounded operations share: the order of the
      scores, the division by 1, the norm of a zero vector.  The overlap
      ratio is a Python [float] and is rounded as such.
    - Python exceptions are the [Err] results of the type [result].
    - The libraries the code calls are modelled by what they document:
      [hashlib.sha256] is SHA-256 itself, [np.argsort] and the FAISS flat
      index are any functions that order the scores (classes [ArgSort] and
      [FlatSearch]), the sentence-transformers model is any function from
      texts to [float32] vectors of a fixed dimension (class
      [SentenceTransformer]). *)

From Stdlib Require Import Reals Psatz ZArith NArith QArith Qround Qpower.
From Stdlib.Strings Require Import Byte Ascii String.
From stdpp Require Import gmap strings list sorting.

Local Open Scope N_scope.

(** ** Exceptions *)

Inductive exn :=
| ValueError (msg : string)
| AttributeError (msg : string)
| IndexError (msg : string)
| AssertionError (msg : string).

Inductive result (A : Type) :=
| OK (a : A)
| Err (e : exn).
Arguments OK {A} a.
Arguments Err {A} e.

#[global] Instance result_ret : MRet result := fun A a => OK a.
#[global] Instance result_bind : MBind result := fun A B k r =>
  match r with OK a => k a | Err e => Err e end.

(** ** [hashlib.sha256(...).hexdigest()] (FIPS 180-4) *)

Module Sha256.

Definition w32 (x : N) : N := x mod 2^32.
Definition add32 (x y : N) : N := w32 (x + y).
Definition rotr (n x : N) : N :=
  N.lor (N.shiftr x n) (w32 (N.shiftl x (32 - n))).
Definition not32 (x : N) : N := N.lxor x (2^32 - 1).

Definition Ch (x y z : N) := N.lxor (N.land x y) (N.land (not32 x) z).
Definition Maj (x y z : N) :=
  N.lxor (N.lxor (N.land x y) (N.land x z)) (N.land y z).
Definition Sigma0 x := N.lxor (N.lxor (rotr 2 x) (rotr 13 x)) (rotr 22 x).
Definition Sigma1 x := N.lxor (N.lxor (rotr 6 x) (rotr 11 x)) (rotr 25 x).
Definition sigma0 x := N.lxor (N.lxor (rotr 7 x) (rotr 18 x)) (N.shiftr x 3).
Definition sigma1 x := N.lxor (N.lxor (rotr 17 x) (rotr 19 x)) (N.shiftr x 10).

(** The primes up to [c + fuel], by trial division. *)
Fixpoint primes_from (fuel : nat) (c : N) (found : list N) : list N :=
  match fuel with
  | O => found
  | S fuel' =>
      if forallb (fun q => negb (c mod q =? 0)) found
      then primes_from fuel' (c + 1) (found ++ [c])
      else primes_from fuel' (c + 1) found
  end.

Definition primes64 : list N := take 64 (primes_from 310 2 []).

(** The integer cube root, one bit at a time. *)
Fixpoint cbrt_bits (bits : nat) (x r : N) : N :=
  match bits with
  | O => r
  | S b =>
      let r' := r + 2 ^ N.of_nat b in
      cbrt_bits b x (if r' * r' * r' <=? x then r' else r)
  end.

(** The round constants: the first 32 bits of the fractional parts of the
    cube roots of the first 64 primes. *)
Definition K : list N :=
  Eval vm_compute in
    map (fun p => w32 (cbrt_bits 40 (p * 2 ^ 96) 0)) primes64.

(** The initial hash value: the same of the square roots of the first 8
    primes. *)
Definition H0 : list N :=
  Eval vm_compute in
    map (fun p => w32 (N.sqrt (p * 2 ^ 64))) (take 8 primes64).

(** Big-endian bytes of a word, most significant first. *)
Fixpoint be_bytes (n : nat) (x : N) : list N :=
  match n with
  | O => []
  | S n' => be_bytes n' (x / 256) ++ [x mod 256]
  end.

Definition be_word (bs : list N) : N :=
  fold_left (fun acc b => acc * 256 + b) bs 0.

(** Message, then [0x80], then zeros up to 56 mod 64, then the bit length. *)
Definition pad (msg : list N) : list N :=
  let len := length msg in
  let zeros := ((119 - len mod 64) mod 64)%nat in
  msg ++ [0x80] ++ repeat 0 zeros ++ be_bytes 8 (8 * N.of_nat len).

Fixpoint chunks (fuel n : nat) (l : list N) : list (list N) :=
  match fuel with
  | O => []
  | S fuel' =>
      match l with
      | [] => []
      | _ => take n l :: chunks fuel' n (drop n l)
      end
  end.

(** The message schedule, most recent word first. *)
Fixpoint schedule (n : nat) (rev_w : list N) : list N :=
  match n with
  | O => rev_w
  | S n' =>
      let w := add32 (add32 (sigma1 (nth 1 rev_w 0)) (nth 6 rev_w 0))
                     (add32 (sigma0 (nth 14 rev_w 0)) (nth 15 rev_w 0)) in
      schedule n' (w :: rev_w)
  end.

Definition round (st : list N) (kw : N * N) : list N :=
  match st with
  | [a; b; c; d; e; f; g; h] =>
      let t1 := add32 (add32 (add32 h (Sigma1 e)) (add32 (Ch e f g) kw.1)) kw.2 in
      let t2 := add32 (Sigma0 a) (Maj a b c) in
      [add32 t1 t2; a; b; c; add32 d t1; e; f; g]
  | _ => st
  end.

Definition compress (h : list N) (block : list N) : list N :=
  let w16 := map be_word (chunks 16 4 block) in
  let w := rev (schedule 48 (rev w16)) in
  let st := fold_left round (zip K w) h in
  zip_with add32 h st.

Definition digest (msg : list N) : list N :=
  let p := pad msg in
  fold_left compress (chunks (length p) 64 p) H0.

Definition hex_digit (d : N) : ascii :=
  if d <? 10 then ascii_of_N (48 + d) else ascii_of_N (87 + d).

Fixpoint hex (n : nat) (x : N) : string :=
  match n with
  | O => EmptyString
  | S n' => hex n' (x / 16) +:+ String (hex_digit (x mod 16)) EmptyString
  end.

Definition hexdigest (s : string) : string :=
  let msg := map N_of_ascii (list_ascii_of_string s) in
  fold_right (fun w acc => hex 8 w +:+ acc) EmptyString (digest msg).

End Sha256.

(** ** [ndarray.tobytes()] and [np.frombuffer(..., dtype=np.float32)] *)

Module Float32.

(** The bit pattern of a [float32]. *)
Definition is_float32 (w : N) : Prop := w < 2^32.

Definition byte_of_N (n : N) : byte :=
  default "000"%byte (Byte.of_N (N.land n 255)).

(** Little-endian, as the arrays lie in memory. *)
Definition word_tobytes (w : N) : list byte :=
  [byte_of_N w; byte_of_N (N.shiftr w 8);
   byte_of_N (N.shiftr w 16); byte_of_N (N.shiftr w 24)].

Definition tobytes (v : list N) : list byte := v ≫= word_tobytes.

Definition word_frombytes (b0 b1 b2 b3 : byte) : N :=
  N.lor (Byte.to_N b0)
    (N.lor (N.shiftl (Byte.to_N b1) 8)
       (N.lor (N.shiftl (Byte.to_N b2) 16) (N.shiftl (Byte.to_N b3) 24))).

(** [np.frombuffer] raises when the buffer is not a whole number of
    elements. *)
Fixpoint frombuffer (bs : list byte) : result (list N) :=
  match bs with
  | [] => OK []
  | b0 :: b1 :: b2 :: b3 :: rest =>
      v ← frombuffer rest; OK (word_frombytes b0 b1 b2 b3 :: v)
  | _ => Err (ValueError "buffer size must be a multiple of element size")
  end.

End Float32.

(** ** [src/cache_manager.py]: [CacheManager] *)

Module CacheManager.
Import Float32.

(** A row of the table [embeddings_cache]; [doc_id] is its primary key. *)
Record cache_row := CacheRow {
  embedding : list byte;
  hash : string;
  updated_at : string
}.

Abbreviation cache_db := (gmap string cache_row).

Definition compute_hash (text : string) : string := Sha256.hexdigest text.

(** [INSERT OR REPLACE]; [timestamp] is the reading of [datetime.now()]. *)
Definition save_embedding (db : cache_db) (doc_id text : string)
    (emb : list N) (timestamp : string) : cache_db :=
  <[doc_id := CacheRow (tobytes emb) (compute_hash text) timestamp]> db.

Definition check_cache (db : cache_db) (doc_id text : string)
    (embedding_dim : Z) : result (option (list N)) :=
  let current_hash := compute_hash text in
  match db !! doc_id with
  | None => OK None
  | Some row =>
      if decide (hash row ≠ current_hash) then OK None
      else
        emb ← frombuffer (embedding row);
        if decide (Z.of_nat (length emb) ≠ embedding_dim) then OK None
        else OK (Some emb)
  end.

Definition delete_cache_entry (db : cache_db) (doc_id : string) : cache_db :=
  delete doc_id db.

Definition clear_cache (db : cache_db) : cache_db := ∅.

Definition total_cached_documents (db : cache_db) : nat := size db.

(** The layout of the persisted state: every BLOB is an array of 32-bit
    floats, four bytes each. *)
Definition cache_wf (db : cache_db) : Prop :=
  ∀ id row, db !! id = Some row → (length (embedding row) mod 4 = 0)%nat.

End CacheManager.

(** ** [src/utils.py] *)

Module Utils.

Local Open Scope nat_scope.

Definition in_range (lo hi : nat) (c : ascii) : bool :=
  let n := nat_of_ascii c in (lo <=? n) && (n <=? hi).

Definition is_upper (c : ascii) : bool := in_range 65 90 c.
Definition is_lower_alnum (c : ascii) : bool :=
  in_range 97 122 c || in_range 48 57 c.

(** The class [\w] of the regular expressions, on ASCII text. *)
Definition is_word (c : ascii) : bool :=
  is_lower_alnum c || is_upper c || in_range 95 95 c.

(** [str.isspace] on ASCII text. *)
Definition is_space (c : ascii) : bool :=
  in_range 9 13 c || in_range 28 32 c.

Definition lower_ascii (c : ascii) : ascii :=
  if is_upper c then ascii_of_nat (nat_of_ascii c + 32) else c.

(** [str.lower()], on ASCII text. *)
Definition lower (s : string) : string :=
  string_of_list_ascii (map lower_ascii (list_ascii_of_string s)).

Definition flush (cur : list ascii) : list (list ascii) :=
  match cur with [] => [] | _ => [rev cur] end.

(** The maximal runs of word characters; [cur] is the run being read,
    last character first. *)
Fixpoint word_runs (cur : list ascii) (l : list ascii) : list (list ascii) :=
  match l with
  | [] => flush cur
  | c :: l' =>
      if is_word c then word_runs (c :: cur) l'
      else flush cur ++ word_runs [] l'
  end.

(** [re.findall(r'\b[a-z0-9]+\b', text)]: a match starts and ends at a
    word boundary, so it is a whole run of word characters, all of them in
    [a-z0-9]. *)
Definition findall_words (text : string) : list string :=
  map string_of_list_ascii
    (filter (λ w, forallb is_lower_alnum w = true)
       (word_runs [] (list_ascii_of_string text))).

Definition extract_keywords_min (text : string) (min_length : nat)
    : list string :=
  let words := findall_words (lower text) in
  filter (λ word, min_length ≤ String.length word) words.

Definition extract_keywords (text : string) : list string :=
  extract_keywords_min text 3.

(** The order of [sorted] on strings. *)
Definition string_le (s1 s2 : string) : Prop := String.leb s1 s2 = true.

#[global] Instance string_le_dec s1 s2 : Decision (string_le s1 s2).
Proof. unfold string_le. apply _. Defined.

Definition sorted (l : list string) : list string := merge_sort string_le l.

(** The nearest integer, a tie going to the even one. *)
Definition round_half_even (q : Q) : Z :=
  let f := Qfloor q in
  match Qcompare (q - inject_Z f) (1 # 2) with
  | Lt => f
  | Gt => (f + 1)%Z
  | Eq => if Z.even f then f else (f + 1)%Z
  end.

(** The exponent of a positive rational: [2^e <= q < 2^(e+1)]. *)
Definition ilog2 (q : Q) : Z :=
  let k := (Z.log2 (Qnum q) - Z.log2 (Z.pos (Qden q)))%Z in
  if Qle_bool (2 ^ k) q then k else (k - 1)%Z.

(** The value of the Python [float] nearest to [q >= 0], a tie going to
    the even significand: 53 bits from [2^-1022] on, the multiples of
    [2^-1074] below.  The numbers rounded here are at most 1, far from
    the overflow threshold. *)
Definition binary64_nearest (q : Q) : Q :=
  match Qcompare q 0 with
  | Gt =>
      let e := Z.max (ilog2 q) (-1022) in
      let ulp := (2 ^ (e - 52))%Q in
      (inject_Z (round_half_even (q / ulp)) * ulp)%Q
  | _ => 0%Q
  end.

(** [a / b] on two lengths: the quotient, correctly rounded. *)
Definition truediv (a b : nat) : Q :=
  binary64_nearest (Z.of_nat a # Pos.of_nat b).

(** [round(x, 3)]: the value of the float [x] is rounded to three
    decimals, a tie going to the even digit, and the decimal number is
    read back as a float. *)
Definition round3 (x : Q) : Q :=
  binary64_nearest (round_half_even (x * 1000) # 1000).

Record overlap_info := OverlapInfo {
  overlapping_keywords : list string;
  overlap_count : nat;
  overlap_ratio : Q;
  query_keyword_count : nat;
  doc_keyword_count : nat
}.

Definition compute_overlap (query_keywords doc_keywords : list string)
    : overlap_info :=
  let query_set : gset string := list_to_set query_keywords in
  let doc_set : gset string := list_to_set doc_keywords in
  let overlap := query_set ∩ doc_set in
  let ratio : Q :=
    if decide (0 < size query_set)
    then truediv (size overlap) (size query_set)
    else 0%Q in
  {| overlapping_keywords := sorted (elements overlap);
     overlap_count := size overlap;
     overlap_ratio := round3 ratio;
     query_keyword_count := size query_set;
     doc_keyword_count := size doc_set |}.

(** The ratio itself, before any rounding: common keywords over distinct
    query keywords. *)
Definition exact_ratio (query_keywords doc_keywords : list string) : Q :=
  let query_set : gset string := list_to_set query_keywords in
  let doc_set : gset string := list_to_set doc_keywords in
  if decide (0 < size query_set)
  then Qmake (Z.of_nat (size (query_set ∩ doc_set)))
             (Pos.of_nat (size query_set))
  else 0%Q.

(** [str.isascii()] *)
Definition isascii (text : string) : bool :=
  forallb (λ c, nat_of_ascii c <? 128) (list_ascii_of_string text).

(** A byte [10xxxxxx] continues a code point of UTF-8. *)
Definition is_continuation (c : ascii) : bool := in_range 128 191 c.

(** [len(text)]: the number of code points. *)
Definition len (text : string) : nat :=
  length (filter (λ c, is_continuation c = false)
            (list_ascii_of_string text)).

(** The bytes of the first [n] code points. *)
Fixpoint take_chars (n : nat) (l : list ascii) : list ascii :=
  match l with
  | [] => []
  | c :: l' =>
      if is_continuation c then c :: take_chars n l'
      else match n with
           | 0 => []
           | S n' => c :: take_chars n' l'
           end
  end.

(** [text[:n]] *)
Definition slice_to_chars (text : string) (n : nat) : string :=
  string_of_list_ascii (take_chars n (list_ascii_of_string text)).

(** [text[:max_length]] and the ellipsis. *)
Definition get_text_preview (text : string) (max_length : nat) : string :=
  if decide (len text ≤ max_length) then text
  else (slice_to_chars text max_length +:+ "...")%string.

End Utils.

(** ** [src/embedder.py]: [Embedder] *)

Module Embedder.
Import Float32.

(** The sentence-transformers model, an external capability:
    [model.encode] returns a [float32] vector of
    [get_sentence_embedding_dimension()] entries. *)
Class SentenceTransformer := {
  encode : string → list N;
  get_sentence_embedding_dimension : nat;
  encode_length :
    ∀ text, length (encode text) = get_sentence_embedding_dimension;
  encode_float32 : ∀ text, Forall is_float32 (encode text)
}.

Definition embed_text `{SentenceTransformer} (text : string)
    : result (list N) :=
  if decide (text = ""%string)
  then Err (ValueError "Input text must be a non-empty string")
  else OK (encode (Utils.lower text)).

Definition get_embedding_dimension `{SentenceTransformer} : Z :=
  Z.of_nat get_sentence_embedding_dimension.

Local Open Scope R_scope.

(** The value of a finite [float32]; the patterns of the infinities and of
    the NaNs have no real value and are read as [0]. *)
Definition to_R (w : N) : R :=
  let e := N.land (N.shiftr w 23) 255 in
  let m := N.land w (2^23 - 1) in
  let mag :=
    if (e =? 0)%N then IZR (Z.of_N m) * powerRZ 2 (-149)
    else if (e =? 255)%N then 0
    else IZR (Z.of_N (m + 2^23)) * powerRZ 2 (Z.of_N e - 150) in
  if N.testbit w 31 then - mag else mag.

(** [np.array(embeddings_list)], read as real numbers. *)
Definition np_array (embeddings_list : list (list N)) : list (list R) :=
  map (map to_R) embeddings_list.

Definition sum_sq (row : list R) : R :=
  fold_right (λ x acc, x * x + acc) 0 row.

(** [np.linalg.norm] of one row. *)
Definition norm (row : list R) : R := sqrt (sum_sq row).

(** [np.where(norms == 0, 1, norms)] *)
Definition where_zero_one (n : R) : R := if Req_dec_T n 0 then 1 else n.

Definition normalize_embeddings (embeddings : list (list R))
    : list (list R) :=
  let norms := map norm embeddings in
  let norms := map where_zero_one norms in
  zip_with (λ row n, map (λ x, x / n) row) embeddings norms.

(** What [normalize_embeddings] does to one row. *)
Definition normalize_row (row : list R) : list R :=
  map (λ x, x / where_zero_one (norm row)) row.

End Embedder.

(** ** The two search strategies of [src/search_engine.py] *)

Module VectorIndex.

Local Open Scope R_scope.

(** [scores[i]] *)
Definition score_at (scores : list R) (i : nat) : R := nth i scores 0.

(** [np.argsort]: indices that sort the scores in ascending order.  The
    default kind gives no promise on the order of equal scores. *)
Class ArgSort := {
  argsort : list R → list nat;
  argsort_perm : ∀ scores, argsort scores ≡ₚ seq 0 (length scores);
  argsort_sorted :
    ∀ scores, Sorted Rle (map (score_at scores) (argsort scores))
}.

(** [l[:k]] *)
Definition slice_to {A} (k : Z) (l : list A) : list A :=
  if decide (0 ≤ k)%Z then take (Z.to_nat k) l
  else take (length l - Z.to_nat (- k))%nat l.

Definition dot (a b : list R) : R := fold_right Rplus 0 (zip_with Rmult a b).

(** [np.dot(matrix, vector)] raises when the shapes are not aligned. *)
Definition np_dot (m : list (list R)) (v : list R) : result (list R) :=
  if decide (Forall (λ row, length row = length v) m)
  then OK (map (λ row, dot row v) m)
  else Err (ValueError "shapes not aligned").

Definition _search_cosine `{ArgSort} (embeddings : list (list R))
    (query_embedding : list R) (top_k : Z) : result (list R * list Z) :=
  scores ← np_dot embeddings query_embedding;
  let top_indices := slice_to top_k (reverse (argsort scores)) in
  let top_scores := map (score_at scores) top_indices in
  OK (top_scores, map Z.of_nat top_indices).

(** [faiss.IndexFlatIP]: the vectors added, of dimension [d]. *)
Record IndexFlatIP := {
  d : nat;
  xb : list (list R)
}.

Definition ntotal (index : IndexFlatIP) : nat := length (xb index).

(** The order in which an exact inner-product search ranks the stored
    vectors: best score first, the order of equal scores unspecified. *)
Class FlatSearch := {
  knn_order : list R → list nat;
  knn_perm : ∀ scores, knn_order scores ≡ₚ seq 0 (length scores);
  knn_sorted :
    ∀ scores, Sorted (flip Rle) (map (score_at scores) (knn_order scores))
}.

(** The score of the slots that [search] could not fill: the lowest
    [float32], [-(2 - 2^-23) * 2^127]. *)
Definition FLT_LOWEST : R := IZR (- ((2^24 - 1) * 2^104)).

(** [index.search(x, k)] for one query: the [k] best inner products, best
    first; when fewer than [k] vectors are stored, the remaining slots hold
    the label [-1]. *)
Definition faiss_search `{FlatSearch} (index : IndexFlatIP) (x : list R)
    (k : Z) : result (list R * list Z) :=
  if decide (length x ≠ d index) then Err (AssertionError "d == self.d")
  else if decide (k ≤ 0)%Z then Err (AssertionError "k > 0")
  else
    let scores := map (λ row, dot row x) (xb index) in
    let found := take (Z.to_nat k) (knn_order scores) in
    let missing := (Z.to_nat k - length found)%nat in
    OK (map (score_at scores) found ++ replicate missing FLT_LOWEST,
        map Z.of_nat found ++ replicate missing (-1)%Z).

Definition _search_faiss `{FlatSearch} (faiss_index : option IndexFlatIP)
    (query_embedding : list R) (top_k : Z) : result (list R * list Z) :=
  match faiss_index with
  | None => Err (AttributeError "'NoneType' object has no attribute 'search'")
  | Some index => faiss_search index query_embedding top_k
  end.


End VectorIndex.

(** ** [src/search_engine.py]: [SearchEngine] *)

Module SearchEngine.
Import Float32 CacheManager Utils Embedder VectorIndex.

(** A document as [load_text_files] produces it (the fields the engine
    reads). *)
Record document := Document {
  doc_id : string;
  filename : string;
  content : string;
  cleaned_length : nat
}.

Record search_engine := Engine {
  use_faiss : bool;
  documents : list document;
  embeddings : option (list (list R));
  faiss_index : option IndexFlatIP;
  cache_manager : cache_db
}.

(** [SearchEngine(use_faiss=...)] over the persisted cache [db]. *)
Definition init (use_faiss faiss_available : bool) (db : cache_db)
    : search_engine :=
  Engine (use_faiss && faiss_available) [] None None db.

Definition set_documents (e : search_engine) (docs : list document) :=
  Engine (use_faiss e) docs (embeddings e) (faiss_index e) (cache_manager e).
Definition set_embeddings (e : search_engine) (m : option (list (list R))) :=
  Engine (use_faiss e) (documents e) m (faiss_index e) (cache_manager e).
Definition set_faiss_index (e : search_engine) (i : option IndexFlatIP) :=
  Engine (use_faiss e) (documents e) (embeddings e) i (cache_manager e).
Definition set_cache (e : search_engine) (db : cache_db) :=
  Engine (use_faiss e) (documents e) (embeddings e) (faiss_index e) db.

(** [files] is what [load_text_files(self.data_dir)] returns. *)
Definition load_documents (e : search_engine) (files : list document)
    : search_engine * nat :=
  (set_documents e files, length files).

Section Generate.
Context `{SentenceTransformer}.

(** The loop of [generate_embeddings]; [now idx] is the reading of the
    clock when the document at [idx] is saved.  The cache keeps the rows
    written before an exception. *)
Fixpoint generate_loop (force_regenerate : bool) (now : nat → string)
    (idx : nat) (docs : list document)
    (embeddings_list : list (list N)) (cache_hits cache_misses : nat)
    (db : cache_db) : result (list (list N) * nat * nat) * cache_db :=
  match docs with
  | [] => (OK (embeddings_list, cache_hits, cache_misses), db)
  | doc :: rest =>
      let cached :=
        if force_regenerate then OK None
        else check_cache db (doc_id doc) (content doc)
               get_embedding_dimension in
      match cached with
      | Err x => (Err x, db)
      | OK (Some cached_embedding) =>
          generate_loop force_regenerate now (S idx) rest
            (embeddings_list ++ [cached_embedding])
            (S cache_hits) cache_misses db
      | OK None =>
          match embed_text (content doc) with
          | Err x => (Err x, db)
          | OK emb =>
              generate_loop force_regenerate now (S idx) rest
                (embeddings_list ++ [emb]) cache_hits (S cache_misses)
                (save_embedding db (doc_id doc) (content doc) emb (now idx))
          end
      end
  end.

(** The list of vectors, the two counters that are printed, and the
    cache after the run. *)
Definition generate_embeddings_list (e : search_engine)
    (force_regenerate : bool) (now : nat → string)
    : result (list (list N) * nat * nat) * cache_db :=
  if decide (length (documents e) = 0%nat)
  then (Err (ValueError "No documents loaded. Call load_documents() first."),
        cache_manager e)
  else generate_loop force_regenerate now 0 (documents e) [] 0 0
         (cache_manager e).

Definition generate_embeddings (e : search_engine)
    (force_regenerate : bool) (now : nat → string)
    : result unit * search_engine :=
  match generate_embeddings_list e force_regenerate now with
  | (Err x, db) => (Err x, set_cache e db)
  | (OK (embeddings_list, _, _), db) =>
      (OK (), set_embeddings (set_cache e db)
                (Some (np_array embeddings_list)))
  end.

End Generate.

Definition _build_faiss_index (e : search_engine) (m : list (list R))
    : search_engine :=
  let embeddings_normalized := normalize_embeddings m in
  let dimension := length (hd [] embeddings_normalized) in
  set_faiss_index e (Some {| d := dimension; xb := embeddings_normalized |}).

Definition _prepare_cosine_similarity (e : search_engine)
    (m : list (list R)) : search_engine :=
  set_embeddings e (Some (normalize_embeddings m)).

Definition build_vector_index (e : search_engine) : result search_engine :=
  match embeddings e with
  | None =>
      Err (ValueError
             "No embeddings available. Call generate_embeddings() first.")
  | Some m =>
      if use_faiss e then OK (_build_faiss_index e m)
      else OK (_prepare_cosine_similarity e m)
  end.

(** The parts of the explanation; their rendering as text is left out. *)
Inductive similarity_band := High | Moderate | Low.
Inductive length_category := Short | Long.

Definition band_of (score : R) : similarity_band :=
  if Rlt_dec (7 / 10) score then High
  else if Rlt_dec (5 / 10) score then Moderate
  else Low.

Definition length_category_of (doc_length : nat) : option length_category :=
  if decide (doc_length < 100)%nat then Some Short
  else if decide (500 < doc_length)%nat then Some Long
  else None.

Record explanation := Explanation {
  band : similarity_band;
  matching_keywords : list string;
  length_note : option length_category
}.

Definition _generate_explanation (score : R) (overlap : overlap_info)
    (doc : document) : explanation :=
  Explanation (band_of score)
    (if decide (0 < overlap_count overlap)%nat
     then take 5 (overlapping_keywords overlap) else [])
    (length_category_of (cleaned_length doc)).

Record search_result := SearchResult {
  rank : nat;
  result_doc_id : string;
  result_filename : string;
  score : R;
  preview : string;
  doc_length : nat;
  keywords_overlap : list string;
  result_overlap_count : nat;
  result_overlap_ratio : Q;
  result_explanation : explanation
}.

(** [documents[idx]] for an integer index: negative indices count from
    the end. *)
Definition list_getitem {A} (l : list A) (idx : Z) : result A :=
  let i := if decide (idx < 0)%Z then (idx + Z.of_nat (length l))%Z else idx in
  if decide (i < 0)%Z then Err (IndexError "list index out of range")
  else match l !! Z.to_nat i with
       | Some x => OK x
       | None => Err (IndexError "list index out of range")
       end.

Fixpoint mapM {A B} (f : A → result B) (l : list A) : result (list B) :=
  match l with
  | [] => OK []
  | a :: l' => b ← f a; bs ← mapM f l'; OK (b :: bs)
  end.

Section Search.
Context `{SentenceTransformer} `{ArgSort} `{FlatSearch}.

Definition build_result (e : search_engine) (query_keywords : list string)
    (item : nat * (Z * R)) : result search_result :=
  let '(rank0, (idx, sc)) := item in
  doc ← list_getitem (documents e) idx;
  let doc_keywords := extract_keywords (content doc) in
  let overlap := compute_overlap query_keywords doc_keywords in
  OK {| rank := rank0 + 1;
        result_doc_id := doc_id doc;
        result_filename := filename doc;
        score := sc;
        preview := get_text_preview (content doc) 150;
        doc_length := cleaned_length doc;
        keywords_overlap := overlapping_keywords overlap;
        result_overlap_count := overlap_count overlap;
        result_overlap_ratio := overlap_ratio overlap;
        result_explanation := _generate_explanation sc overlap doc |}.

Definition search (e : search_engine) (query : string) (top_k : Z)
    : result (list search_result) :=
  match embeddings e with
  | None =>
      Err (ValueError "Search index not built. Call build_vector_index() first.")
  | Some m =>
      q ← embed_text query;
      let query_embedding := hd [] (normalize_embeddings [map to_R q]) in
      found ← (if use_faiss e
               then _search_faiss (faiss_index e) query_embedding top_k
               else _search_cosine m query_embedding top_k);
      let '(scores, indices) := found in
      let query_keywords := extract_keywords query in
      mapM (build_result e query_keywords)
        (zip (seq 0 (length indices)) (zip indices scores))
  end.

End Search.

End SearchEngine.

(** ** [src/api.py]: the validation in front of [SearchEngine.search] *)

Module Api.
Import Utils SearchEngine.

Inductive response :=
| Ok200 (results : list search_result)
| BadRequest400 (detail : string)
| Unprocessable422
| ServerError500
| Unavailable503.

(** [SearchRequest]: [query] has [min_length=1], [top_k] has [ge=1] and
    [le=50]. *)
Definition request_valid (query : string) (top_k : Z) : bool :=
  bool_decide (1 ≤ String.length query)%nat
  && bool_decide (1 ≤ top_k ≤ 50)%Z.

(** [not query.strip()] *)
Definition blank (query : string) : bool :=
  forallb is_space (list_ascii_of_string query).

Section Api.
Context `{Embedder.SentenceTransformer} `{VectorIndex.ArgSort}
        `{VectorIndex.FlatSearch}.

Definition search_documents (engine : option search_engine)
    (query : string) (top_k : Z) : response :=
  if negb (request_valid query top_k) then Unprocessable422
  else match engine with
       | None => Unavailable503
       | Some e =>
           if blank query then BadRequest400 "Query cannot be empty"
           else match search e query top_k with
                | Err _ => ServerError500
                | OK results => Ok200 results
                end
       end.

End Api.

End Api.

(** ** A stable insertion sort on indices

    NumPy's default sort runs an insertion sort on short arrays; it serves
    as an instance of the orders left open above. *)

Module InsertionOrder.
Import VectorIndex.

#[global] Instance Rle_rel_dec : RelDecision Rle := Rle_dec.

Section Insertion.
Context (rel : relation R) `{!RelDecision rel} (scores : list R).

Fixpoint insert_index (i : nat) (l : list nat) : list nat :=
  match l with
  | [] => [i]
  | j :: l' =>
      if decide (rel (score_at scores i) (score_at scores j))
      then i :: j :: l'
      else j :: insert_index i l'
  end.

Definition insertion_order : list nat :=
  foldr insert_index [] (seq 0 (length scores)).

End Insertion.

End InsertionOrder.

(** ** Sample data: a deterministic stub of the model and two documents *)

Module Sample.
Import SearchEngine.

(** The pattern of [1.0]. *)
Definition one : N := 0x3f800000.

(** Texts of even length go to (1, 0), the others to (0, 1). *)
Definition stub_encode (text : string) : list N :=
  if Nat.even (String.length text) then [one; 0] else [0; one].

Definition docs : list document :=
  [ Document "doc_001" "doc_001.txt"
      "machine learning algorithms learn from data" 43;
    Document "doc_002" "doc_002.txt"
      "deep learning uses neural networks" 34 ].

Definition now (idx : nat) : string := "2024-01-01T00:00:00".

End Sample.

(** ** [src/cache_manager.py]: listing and loading the cache *)

Module CacheMaintenance.
Import Float32 CacheManager.

(** An entry of [get_all_cached_embeddings]. *)
Record cache_info := CacheInfo {
  info_hash : string;
  info_updated_at : string
}.

Definition get_all_cached_embeddings (db : cache_db)
    : gmap string cache_info :=
  (λ row, CacheInfo (hash row) (updated_at row)) <$> db.

(** One turn of the loop of [load_cache]. *)
Definition load_row (entry : string * cache_row)
    : result (string * (list N * string)) :=
  emb ← frombuffer (embedding entry.2); OK (entry.1, (emb, hash entry.2)).

(** [load_cache]: the rows come in the order of [fetchall]; [doc_id] is
    the primary key, so each fills its own entry of the dictionary. *)
Definition load_cache (db : cache_db)
    : result (gmap string (list N * string)) :=
  rows ← SearchEngine.mapM load_row (map_to_list db);
  OK (list_to_map rows).

End CacheMaintenance.

(** ** [src/utils.py]: cleaning the text of a document *)

Module TextCleaning.
Import Utils.

Local Open Scope nat_scope.

Definition is_char (n : nat) (c : ascii) : bool := in_range n n c.

(** The rest of a match of [<.*?>], read from just after the [<]: the
    text that follows the first [>], when it comes before any newline
    (the dot matches every character but the newline). *)
Fixpoint find_close (l : list ascii) : option (list ascii) :=
  match l with
  | [] => None
  | c :: l' =>
      if is_char 62 c then Some l'
      else if is_char 10 c then None
      else find_close l'
  end.

(** [re.sub('<.*?>', '', text)], scanning from the left: at a [<] that
    opens a match the match is dropped and the scan goes on behind it;
    every other character is kept.  The fuel is the length of the text,
    which the scan never exceeds. *)
Fixpoint remove_tags (fuel : nat) (l : list ascii) : list ascii :=
  match fuel with
  | O => l
  | S fuel' =>
      match l with
      | [] => []
      | c :: l' =>
          if is_char 60 c then
            match find_close l' with
            | Some rest => remove_tags fuel' rest
            | None => c :: remove_tags fuel' l'
            end
          else c :: remove_tags fuel' l'
      end
  end.

Definition remove_html_tags (text : string) : string :=
  let l := list_ascii_of_string text in
  string_of_list_ascii (remove_tags (length l) l).

(** [re.sub(r'\s+', ' ', text)]: each run of whitespace becomes one
    space; [in_run] tells that the previous character was whitespace. *)
Fixpoint collapse_whitespace (in_run : bool) (l : list ascii) : list ascii :=
  match l with
  | [] => []
  | c :: l' =>
      if is_space c then
        if in_run then collapse_whitespace true l'
        else " "%char :: collapse_whitespace true l'
      else c :: collapse_whitespace false l'
  end.

Fixpoint lstrip (l : list ascii) : list ascii :=
  match l with
  | [] => []
  | c :: l' => if is_space c then lstrip l' else l
  end.

(** [str.strip()] *)
Definition strip (l : list ascii) : list ascii :=
  rev (lstrip (rev (lstrip l))).

(** No [<] of the text opens a tag. *)
Fixpoint no_tag (l : list ascii) : Prop :=
  match l with
  | [] => True
  | c :: l' => (is_char 60 c = true → find_close l' = None) ∧ no_tag l'
  end.

(** Every whitespace character is a space, and none follows another. *)
Fixpoint single_spaced (l : list ascii) : Prop :=
  match l with
  | [] => True
  | c :: l' =>
      (is_space c = true →
       c = " "%char ∧ ∀ c', head l' = Some c' → is_space c' = false)
      ∧ single_spaced l'
  end.

Definition clean_text (text : string) : string :=
  if decide (text = ""%string) then ""%string
  else
    let text := lower text in
    let text := remove_html_tags text in
    let l := collapse_whitespace false (list_ascii_of_string text) in
    string_of_list_ascii (strip l).

End TextCleaning.

(** ** The form of a digest *)

Module HexDigest.

(** The digits of [hexdigest]: [0-9a-f]. *)
Definition is_hex_digit (c : ascii) : bool :=
  Utils.in_range 48 57 c || Utils.in_range 97 102 c.

End HexDigest.
(** ** [src/embedder.py]: [embed_documents] *)

Module EmbedderBatch.
Import Embedder.

(** [model.encode] on a list returns one row per text; the row is taken
    to be the vector [encode] gives for the text alone.  No text of the
    list is checked. *)
Definition embed_documents `{SentenceTransformer} (texts : list string)
    : result (list (list N)) :=
  if decide (texts = [])
  then Err (ValueError "Input must be a non-empty list of strings")
  else
    let texts := map Utils.lower texts in
    OK (map encode texts).

End EmbedderBatch.

(** ** [src/search_engine.py]: the index of the documents and the
    statistics; [main.py]: the initialization *)

Module EngineState.
Import CacheManager Embedder VectorIndex SearchEngine.

(** [{doc["doc_id"]: idx for idx, doc in enumerate(documents)}], the
    entries written from the first document on. *)
Fixpoint doc_ids_from (idx : nat) (docs : list document)
    (acc : gmap string nat) : gmap string nat :=
  match docs with
  | [] => acc
  | doc :: rest => doc_ids_from (S idx) rest (<[doc_id doc := idx]> acc)
  end.

(** The engine with its dictionary [doc_id_to_idx]. *)
Record indexed_engine := IndexedEngine {
  engine : search_engine;
  doc_id_to_idx : gmap string nat
}.

(** [load_documents], with the dictionary: it is rebuilt only when
    documents were found. *)
Definition load_documents_indexed (ie : indexed_engine)
    (files : list document) : indexed_engine * nat :=
  let e := (load_documents (engine ie) files).1 in
  if decide (length files = 0%nat)
  then (IndexedEngine e (doc_id_to_idx ie), 0%nat)
  else (IndexedEngine e (doc_ids_from 0 files ∅), length files).

(** [get_stats]; the size of the database file is left out. *)
Record stats := Stats {
  total_documents : nat;
  embeddings_generated : bool;
  embedding_dimension : Z;
  search_method : string;
  cache_total : nat;
  embeddings_shape : option (nat * nat)
}.

Definition get_stats `{SentenceTransformer} (e : search_engine) : stats :=
  {| total_documents := length (documents e);
     embeddings_generated := bool_decide (embeddings e ≠ None);
     embedding_dimension := get_embedding_dimension;
     search_method :=
       if use_faiss e then "FAISS"%string else "Cosine Similarity"%string;
     cache_total := total_cached_documents (cache_manager e);
     embeddings_shape :=
       match embeddings e with
       | Some m => Some (length m, length (hd [] m))
       | None => None
       end |}.

(** How [initialize_search_engine] ends: [sys.exit(1)], an exception, or
    the engine. *)
Inductive init_outcome :=
| Exit1
| Raised (x : exn)
| Ready (e : search_engine).

(** [initialize_search_engine]; [files] is what the data directory holds
    once it is validated or filled with the sample documents. *)
Definition initialize_search_engine `{SentenceTransformer}
    (files : list document) (db : cache_db)
    (use_faiss faiss_available force_regenerate : bool)
    (now : nat → string) : init_outcome :=
  let e := init use_faiss faiss_available db in
  let '(e, num_docs) := load_documents e files in
  if decide (num_docs = 0%nat) then Exit1
  else
    match generate_embeddings e force_regenerate now with
    | (Err x, _) => Raised x
    | (OK _, e) =>
        match build_vector_index e with
        | Err x => Raised x
        | OK e => Ready e
        end
    end.

End EngineState.

(** ** [src/api.py]: the documents *)

Module ApiDocuments.
Import Utils SearchEngine EngineState.

Inductive document_response :=
| Document200 (doc : document)
| DocumentNotFound404
| DocumentUnavailable503
| DocumentRaised (x : exn).

(** [get_document]: an exception of [documents[doc_idx]] is not caught. *)
Definition get_document (search_engine : option indexed_engine)
    (doc_id : string) : document_response :=
  match search_engine with
  | None => DocumentUnavailable503
  | Some ie =>
      match doc_id_to_idx ie !! doc_id with
      | None => DocumentNotFound404
      | Some doc_idx =>
          match list_getitem (documents (engine ie)) (Z.of_nat doc_idx) with
          | OK doc => Document200 doc
          | Err x => DocumentRaised x
          end
      end
  end.

Record doc_summary := DocSummary {
  summary_doc_id : string;
  summary_filename : string;
  summary_length : nat;
  summary_preview : string
}.

Definition summarize (doc : document) : doc_summary :=
  {| summary_doc_id := doc_id doc;
     summary_filename := filename doc;
     summary_length := cleaned_length doc;
     summary_preview :=
       if decide (100 < len (content doc))%nat
       then (slice_to_chars (content doc) 100 +:+ "...")%string
       else content doc |}.

Record listing := Listing {
  listing_total : nat;
  listing_offset : Z;
  listing_limit : Z;
  listing_returned : nat;
  listing_documents : list doc_summary
}.

Inductive listing_response :=
| Listing200 (l : listing)
| ListingUnprocessable422
| ListingUnavailable503.

(** [list_documents]: [limit] has [ge=1] and [le=1000], [offset] has
    [ge=0]; the page is [documents[offset:offset + limit]]. *)
Definition list_documents (search_engine : option SearchEngine.search_engine)
    (limit offset : Z) : listing_response :=
  if negb (bool_decide (1 ≤ limit ≤ 1000)%Z && bool_decide (0 ≤ offset)%Z)
  then ListingUnprocessable422
  else match search_engine with
       | None => ListingUnavailable503
       | Some e =>
           let page :=
             take (Z.to_nat limit) (drop (Z.to_nat offset) (documents e)) in
           let doc_list := map summarize page in
           Listing200
             {| listing_total := length (documents e);
                listing_offset := offset;
                listing_limit := limit;
                listing_returned := length doc_list;
                listing_documents := doc_list |}
       end.

End ApiDocuments.

(** * Properties *)

(** ** SHA-256 test vectors *)

Example sha256_empty :
  Sha256.hexdigest "" =
  "e3b0c44298fc1c149afbf4c8996fb92427ae41e4649b934ca495991b7852b855"%string.
Proof. vm_compute. reflexivity. Qed.

Example sha256_abc :
  Sha256.hexdigest "abc" =
  "ba7816bf8f01cfea414140de5dae2223b00361a396177a9cb410ff61f20015ad"%string.
Proof. vm_compute. reflexivity. Qed.

Example sha256_two_blocks :
  Sha256.hexdigest "aaaaaaaaaaaaaaaaaaaaaaaaaaaaaaaaaaaaaaaaaaaaaaaaaaaaaaaa" =
  "b35439a4ac6f0948b6d6f9e3c6af0f5f590ce20f1bde7090ef7970686ec6738a"%string.
Proof. vm_compute. reflexivity. Qed.


(** ** The byte layout of [float32] arrays *)

Section Float32Facts.
Import Float32.

Lemma byte_of_N_to_N n : Byte.to_N (byte_of_N n) = N.land n 255.
Proof.
  unfold byte_of_N.
  destruct (Byte.of_N (N.land n 255)) as [b|] eqn:E; simpl.
  - by apply Byte.to_of_N.
  - apply Byte.of_N_None_iff in E. exfalso. revert E.
    change 255 with (N.ones 8). rewrite N.land_ones.
    change (N.ones 8) with 255.
    assert (n mod 2 ^ 8 < 2 ^ 8) by (by apply N.mod_upper_bound).
    change (2 ^ 8) with 256 in *. lia.
Qed.

Lemma testbit_255 i : N.testbit 255 i = (i <? 8).
Proof.
  change 255 with (N.ones 8).
  destruct (N.ltb_spec i 8).
  - by apply N.ones_spec_low.
  - by apply N.ones_spec_high.
Qed.

Lemma testbit_byte w k i :
  N.testbit (N.shiftl (N.land (N.shiftr w k) 255) k) i
  = N.testbit w i && (k <=? i) && (i <? k + 8).
Proof.
  destruct (N.leb_spec k i).
  - rewrite N.shiftl_spec_high' by done.
    rewrite N.land_spec, N.shiftr_spec', testbit_255.
    replace (i - k + k) with i by lia.
    replace (i - k <? 8) with (i <? k + 8); [by rewrite andb_true_r|].
    destruct (N.ltb_spec i (k + 8)), (N.ltb_spec (i - k) 8); done || lia.
  - rewrite N.shiftl_spec_low by done. by rewrite andb_false_r.
Qed.

Lemma float32_high_bits w i : is_float32 w → 32 ≤ i → N.testbit w i = false.
Proof.
  intros Hw Hi. rewrite <- (N.mod_small w (2 ^ 32)) by done.
  by apply N.mod_pow2_bits_high.
Qed.

(** Four bytes, least significant first, rebuild the word. *)
Lemma word_frombytes_tobytes w :
  is_float32 w →
  word_frombytes (byte_of_N w) (byte_of_N (N.shiftr w 8))
    (byte_of_N (N.shiftr w 16)) (byte_of_N (N.shiftr w 24)) = w.
Proof.
  intros Hw. unfold word_frombytes. rewrite !byte_of_N_to_N.
  apply N.bits_inj. intros i.
  rewrite <- (N.shiftl_0_r (N.land w 255)), <- (N.shiftr_0_r w) at 1.
  rewrite !N.lor_spec, !testbit_byte.
  destruct (N.le_gt_cases 32 i) as [Hi|Hi].
  - rewrite (float32_high_bits w i) by done. done.
  - destruct (N.testbit w i); simpl; [|done].
    destruct (N.ltb_spec i (0 + 8)), (N.ltb_spec i (8 + 8)),
      (N.ltb_spec i (16 + 8)), (N.ltb_spec i (24 + 8)),
      (N.leb_spec 0 i), (N.leb_spec 8 i), (N.leb_spec 16 i),
      (N.leb_spec 24 i); simpl; done || lia.
Qed.

Lemma frombuffer_tobytes v :
  Forall is_float32 v → frombuffer (tobytes v) = OK v.
Proof.
  induction 1 as [|w v Hw _ IH]; [done|].
  change (tobytes (w :: v)) with (word_tobytes w ++ tobytes v).
  unfold word_tobytes. simpl. rewrite IH. simpl.
  by rewrite word_frombytes_tobytes.
Qed.

Lemma length_tobytes v : length (tobytes v) = (4 * length v)%nat.
Proof.
  induction v as [|w v IH]; [done|].
  change (tobytes (w :: v)) with (word_tobytes w ++ tobytes v).
  rewrite length_app, IH. simpl. lia.
Qed.

(** Induction four bytes at a time. *)
Lemma list_ind4 {A} (P : list A → Prop) :
  P [] → (∀ a, P [a]) → (∀ a b, P [a; b]) → (∀ a b c, P [a; b; c]) →
  (∀ a b c d l, P l → P (a :: b :: c :: d :: l)) → ∀ l, P l.
Proof.
  intros H0 H1 H2 H3 H4.
  fix IH 1. intros [|a [|b [|c [|d l]]]];
    [apply H0 | apply H1 | apply H2 | apply H3 | apply H4, IH].
Qed.

Lemma frombuffer_length bs v :
  frombuffer bs = OK v → length bs = (4 * length v)%nat.
Proof.
  revert v. induction bs as [|a|a b|a b c|a b c d l IH] using list_ind4;
    intros v; simpl; try discriminate.
  - intros [= <-]. done.
  - destruct (frombuffer l) as [v'|]; simpl; [|discriminate].
    intros [= <-]. simpl. rewrite (IH v') by done. lia.
Qed.

(** [np.frombuffer] succeeds exactly on whole numbers of elements. *)
Lemma frombuffer_ok_iff bs :
  (∃ v, frombuffer bs = OK v) ↔ (length bs mod 4 = 0)%nat.
Proof.
  induction bs as [|a|a b|a b c|a b c d l IH] using list_ind4.
  - naive_solver.
  - split; [intros [? [=]] | done].
  - split; [intros [? [=]] | done].
  - split; [intros [? [=]] | done].
  - change (length (a :: b :: c :: d :: l)) with (4 + length l)%nat.
    replace (4 + length l)%nat with (length l + 1 * 4)%nat by lia.
    rewrite Nat.Div0.mod_add, <- IH.
    change (frombuffer (a :: b :: c :: d :: l))
      with (v ← frombuffer l; OK (word_frombytes a b c d :: v)).
    split.
    + intros [v Hv]. destruct (frombuffer l) as [v'|]; [eauto|done].
    + intros [v' ->]. eauto.
Qed.

End Float32Facts.

(** ** The embedding cache *)

Section CacheFacts.
Import Float32 CacheManager.

Lemma cache_wf_empty : cache_wf ∅.
Proof. intros id row. by rewrite lookup_empty. Qed.

Lemma cache_wf_save db doc_id text v ts :
  cache_wf db → cache_wf (save_embedding db doc_id text v ts).
Proof.
  intros Hwf id row. unfold save_embedding. rewrite lookup_insert.
  case_decide.
  - intros [= <-]. cbn [embedding]. rewrite length_tobytes.
    rewrite Nat.mul_comm. apply Nat.Div0.mod_mul.
  - apply Hwf.
Qed.

Lemma cache_wf_delete db doc_id :
  cache_wf db → cache_wf (delete_cache_entry db doc_id).
Proof.
  intros Hwf id row. unfold delete_cache_entry. rewrite lookup_delete.
  case_decide; [done | apply Hwf].
Qed.

Lemma check_cache_absent db doc_id text dim :
  db !! doc_id = None → check_cache db doc_id text dim = OK None.
Proof. intros E. unfold check_cache. by rewrite E. Qed.

Lemma check_cache_stale db doc_id text dim row :
  db !! doc_id = Some row → hash row ≠ compute_hash text →
  check_cache db doc_id text dim = OK None.
Proof. intros E Hne. unfold check_cache. rewrite E. by rewrite decide_True. Qed.

Lemma check_cache_fresh db doc_id text dim row v :
  db !! doc_id = Some row → hash row = compute_hash text →
  frombuffer (embedding row) = OK v →
  check_cache db doc_id text dim
  = if decide (Z.of_nat (length v) ≠ dim) then OK None else OK (Some v).
Proof.
  intros E Hh Hv. unfold check_cache. rewrite E.
  rewrite decide_False by (intros Hne; by apply Hne). by rewrite Hv.
Qed.

(** A row just saved is read back under the same text. *)
Lemma check_cache_after_save db doc_id text v ts :
  Forall is_float32 v →
  check_cache (save_embedding db doc_id text v ts) doc_id text
    (Z.of_nat (length v)) = OK (Some v).
Proof.
  intros Hv.
  rewrite (check_cache_fresh _ _ _ _
             (CacheRow (tobytes v) (compute_hash text) ts) v).
  - by rewrite decide_False by (intros Hne; by apply Hne).
  - unfold save_embedding. apply lookup_insert_eq.
  - done.
  - by apply frombuffer_tobytes.
Qed.

(** On well-formed rows the lookup is a hit of the expected dimension or
    a miss. *)
Lemma check_cache_outcome db doc_id text dim :
  cache_wf db →
  (∃ v, check_cache db doc_id text dim = OK (Some v)
        ∧ Z.of_nat (length v) = dim)
  ∨ check_cache db doc_id text dim = OK None.
Proof.
  intros Hwf.
  destruct (db !! doc_id) as [row|] eqn:E;
    [|right; by apply check_cache_absent].
  destruct (decide (hash row = compute_hash text)) as [Hh|Hh];
    [|right; by eapply check_cache_stale].
  destruct (proj2 (frombuffer_ok_iff (embedding row))) as [v Hv];
    [by eapply Hwf|].
  rewrite (check_cache_fresh _ _ _ _ row v) by done.
  case_decide as Hl; [by right|].
  left. exists v. split; [done | lia].
Qed.

(** C1. On a cache whose BLOBs are arrays of 32-bit floats, [check_cache]
    returns the stored vector exactly when a row exists for the [doc_id],
    its digest is the hash of the content and the stored vector has the
    expected dimension; otherwise it returns [None]; it never raises.  A
    vector saved under one text is a miss under a text with another
    digest. *)
Theorem check_cache_spec (db : cache_db) (doc_id content : string)
    (expected_dim : Z) :
  cache_wf db →
  (∀ v, check_cache db doc_id content expected_dim = OK (Some v) ↔
        ∃ row, db !! doc_id = Some row ∧ hash row = compute_hash content ∧
               frombuffer (embedding row) = OK v ∧
               Z.of_nat (length v) = expected_dim)
  ∧ ((∃ v, check_cache db doc_id content expected_dim = OK (Some v))
     ∨ check_cache db doc_id content expected_dim = OK None)
  ∧ (∀ text1 text2 v ts,
        compute_hash text1 ≠ compute_hash text2 →
        check_cache (save_embedding db doc_id text1 v ts) doc_id text2
          (Z.of_nat (length v)) = OK None).
Proof.
  intros Hwf. split; [|split].
  - intros v. split.
    + unfold check_cache. destruct (db !! doc_id) as [row|] eqn:E; [|done].
      case_decide as Hh; [done|].
      destruct (frombuffer (embedding row)) as [v'|] eqn:Ev; [|done]. simpl.
      case_decide as Hl; [done|]. intros [= <-].
      exists row. split_and!; [done | | done | lia].
      destruct (decide (hash row = compute_hash content)); [done|].
      by destruct Hh.
    + intros (row & E & Hh & Hv & Hl).
      rewrite (check_cache_fresh _ _ _ _ row v) by done.
      by rewrite decide_False by lia.
  - destruct (check_cache_outcome db doc_id content expected_dim Hwf)
      as [(v & Hv & _)|Hv]; [left; eauto | by right].
  - intros text1 text2 v ts Hne.
    eapply check_cache_stale.
    + unfold save_embedding. apply lookup_insert_eq.
    + done.
Qed.

(** C6. A [float32] vector is stored as four bytes per entry, the bytes
    decode to the same vector, and saving it and reading it back under the
    same text and its own dimension returns it, bit for bit. *)
Theorem save_check_roundtrip (db : cache_db) (doc_id text : string)
    (v : list N) (ts : string) :
  Forall is_float32 v →
  length (tobytes v) = (4 * length v)%nat
  ∧ frombuffer (tobytes v) = OK v
  ∧ save_embedding db doc_id text v ts !! doc_id
    = Some (CacheRow (tobytes v) (compute_hash text) ts)
  ∧ check_cache (save_embedding db doc_id text v ts) doc_id text
      (Z.of_nat (length v)) = OK (Some v).
Proof.
  intros Hv. split_and!.
  - apply length_tobytes.
  - by apply frombuffer_tobytes.
  - unfold save_embedding. apply lookup_insert_eq.
  - by apply check_cache_after_save.
Qed.

(** A BLOB that is not a whole number of floats makes [np.frombuffer]
    raise: the layout of the rows is needed for C1. *)
Example check_cache_truncated_blob :
  check_cache {[ "d"%string := CacheRow ["001"%byte] (compute_hash "t") "" ]}
    "d" "t" 1
  = Err (ValueError "buffer size must be a multiple of element size").
Proof.
  unfold check_cache. rewrite lookup_singleton_eq.
  rewrite decide_False by (intros Hne; by apply Hne). done.
Qed.

End CacheFacts.

(** ** L2 normalization *)

Section NormalizeFacts.
Import Embedder.
Local Open Scope R_scope.

Lemma normalize_embeddings_rows m :
  normalize_embeddings m = map normalize_row m.
Proof.
  unfold normalize_embeddings.
  induction m as [|row m IH]; [done|]. simpl. by rewrite IH.
Qed.

Lemma sum_sq_nonneg row : 0 <= sum_sq row.
Proof. induction row as [|x row IH]; simpl; [lra | nra]. Qed.

Lemma norm_zeros row : Forall (λ x, x = 0) row → norm row = 0.
Proof.
  intros Hz. unfold norm.
  assert (sum_sq row = 0) as ->; [|apply sqrt_0].
  induction Hz as [|x row -> _ IH]; simpl; [done|]. rewrite IH. lra.
Qed.

Lemma where_zero_one_nonzero n : where_zero_one n ≠ 0.
Proof. unfold where_zero_one. destruct (Req_dec_T n 0); lra. Qed.

Lemma normalize_row_zero_norm row :
  norm row = 0 → normalize_row row = row.
Proof.
  intros Hn. unfold normalize_row, where_zero_one.
  destruct (Req_dec_T (norm row) 0) as [_|]; [|done].
  induction row as [|x row IH]; [done|]. simpl. f_equal; [lra|].
  clear IH Hn. induction row as [|y row IH]; [done|].
  simpl. f_equal; [lra | done].
Qed.

Lemma normalize_row_length row : length (normalize_row row) = length row.
Proof. unfold normalize_row. by rewrite length_map. Qed.

(** C10. [normalize_embeddings] is a total function that keeps the shape
    of the matrix and whose divisor is never zero: it divides each row by
    its norm, and by 1 when the norm is zero.  A row of zero norm is
    therefore returned unchanged, still of norm 0 and not of norm 1; in
    particular a zero vector comes out as a zero vector. *)
Theorem normalize_embeddings_safe (m : list (list R)) :
  normalize_embeddings m
  = map (λ row, map (λ x, x / where_zero_one (norm row)) row) m
  ∧ length (normalize_embeddings m) = length m
  ∧ ∀ i row, m !! i = Some row →
      where_zero_one (norm row) ≠ 0
      ∧ (∃ row', normalize_embeddings m !! i = Some row'
                 ∧ length row' = length row)
      ∧ (norm row = 0 →
         where_zero_one (norm row) = 1
         ∧ normalize_embeddings m !! i = Some row
         ∧ norm row ≠ 1)
      ∧ (Forall (λ x, x = 0) row →
         norm row = 0 ∧ normalize_embeddings m !! i = Some row).
Proof.
  rewrite normalize_embeddings_rows. split; [done|].
  split; [by rewrite length_map|].
  intros i row Hi.
  assert (norm row = 0 → map normalize_row m !! i = Some row) as Hsame.
  { intros Hn. rewrite list_lookup_fmap, Hi. simpl. f_equal.
    by apply normalize_row_zero_norm. }
  split; [apply where_zero_one_nonzero|]. split_and!.
  - exists (normalize_row row). split.
    + by rewrite list_lookup_fmap, Hi.
    + apply normalize_row_length.
  - intros Hn. split_and!.
    + unfold where_zero_one. by destruct (Req_dec_T (norm row) 0).
    + by apply Hsame.
    + rewrite Hn. lra.
  - intros Hz. split; [by apply norm_zeros|]. by apply Hsame, norm_zeros.
Qed.

End NormalizeFacts.

(** ** Orders on scores *)

Section OrderFacts.
Import VectorIndex InsertionOrder.

#[global] Instance Rle_total : Total Rle.
Proof. intros x y. destruct (Rle_or_lt x y); [by left | right; lra]. Qed.
#[global] Instance Rle_trans' : Transitive Rle.
Proof. intros x y z. apply Rle_trans. Qed.
#[global] Instance Rle_antisym' : AntiSymm (=) Rle.
Proof. intros x y. apply Rle_antisym. Qed.
#[global] Instance flip_total {A} (R : relation A) `{!Total R} : Total (flip R).
Proof. intros x y. destruct (total R x y); [by right | by left]. Qed.

Section Insertion.
Context (rel : relation R) `{!RelDecision rel} `{!Total rel}.
Context (scores : list R).

Let before (i j : nat) : Prop := rel (score_at scores i) (score_at scores j).

Lemma insert_index_perm i l : insert_index rel scores i l ≡ₚ i :: l.
Proof.
  induction l as [|j l IH]; simpl; [done|].
  case_decide; [done|]. rewrite IH. apply Permutation_swap.
Qed.

Lemma insert_index_sorted i l :
  Sorted before l → Sorted before (insert_index rel scores i l).
Proof.
  induction 1 as [|j l Hs IH Hhd]; simpl.
  - repeat constructor.
  - case_decide as Hij.
    + repeat constructor; done.
    + constructor; [done|].
      assert (before j i) as Hji by (by destruct (total rel
        (score_at scores i) (score_at scores j))).
      destruct Hhd as [|k l' Hjk]; simpl; [by constructor|].
      case_decide; by constructor.
Qed.

Lemma insertion_order_perm :
  insertion_order rel scores ≡ₚ seq 0 (length scores).
Proof.
  unfold insertion_order.
  induction (seq 0 (length scores)) as [|i l IH]; simpl; [done|].
  by rewrite insert_index_perm, IH.
Qed.

Lemma insertion_order_sorted :
  Sorted rel (map (score_at scores) (insertion_order rel scores)).
Proof.
  apply (Sorted_fmap _ before); [done|].
  unfold insertion_order.
  induction (seq 0 (length scores)) as [|i l IH]; simpl; [constructor|].
  by apply insert_index_sorted.
Qed.

End Insertion.

End OrderFacts.

(** [np.argsort] as a stable insertion sort. *)
Definition stable_argsort : VectorIndex.ArgSort := {|
  VectorIndex.argsort := InsertionOrder.insertion_order Rle;
  VectorIndex.argsort_perm := insertion_order_perm Rle;
  VectorIndex.argsort_sorted := insertion_order_sorted Rle
|}.

(** An exact search that ranks equal scores by ascending index. *)
Definition stable_flat_search : VectorIndex.FlatSearch := {|
  VectorIndex.knn_order := InsertionOrder.insertion_order (flip Rle);
  VectorIndex.knn_perm := insertion_order_perm (flip Rle);
  VectorIndex.knn_sorted := insertion_order_sorted (flip Rle)
|}.

(** ** The two search strategies *)

Section SearchFacts.
Import VectorIndex.

#[local] Instance flip_Rle_trans : Transitive (flip Rle).
Proof. intros x y z Hxy Hyz. unfold flip in *. lra. Qed.
#[local] Instance flip_Rle_antisym : AntiSymm (=) (flip Rle).
Proof. intros x y Hxy Hyx. unfold flip in *. lra. Qed.

Lemma np_dot_ok m v :
  Forall (λ row, length row = length v) m →
  np_dot m v = OK (map (λ row, dot row v) m).
Proof. intros Hm. unfold np_dot. by rewrite decide_True. Qed.

Lemma Sorted_take {A} (R : relation A) n l :
  Sorted R l → Sorted R (take n l).
Proof.
  intros Hs. revert n. induction Hs as [|x l Hs IH Hhd]; intros [|n]; simpl;
    try constructor; [apply IH|].
  destruct Hhd; destruct n; simpl; by constructor.
Qed.

Lemma slice_to_prefix {A} k (l : list A) : ∃ n, slice_to k l = take n l.
Proof. unfold slice_to. case_decide; eauto. Qed.

Lemma slice_to_nonneg {A} k (l : list A) :
  (0 ≤ k)%Z → slice_to k l = take (Z.to_nat k) l.
Proof. intros Hk. unfold slice_to. by rewrite decide_True. Qed.

Lemma slice_to_all {A} k (l : list A) :
  (Z.of_nat (length l) ≤ k)%Z → slice_to k l = l.
Proof.
  intros Hk. rewrite slice_to_nonneg by lia. apply take_ge. lia.
Qed.



Lemma perm_seq_bound p n :
  p ≡ₚ seq 0 n → Forall (λ i, i < n)%nat p.
Proof.
  intros Hp. apply Forall_forall. intros i Hi.
  rewrite Hp in Hi. apply elem_of_seq in Hi. lia.
Qed.


Context `{ArgSort} `{FlatSearch}.

Lemma reverse_argsort_perm scores :
  reverse (argsort scores) ≡ₚ seq 0 (length scores).
Proof. rewrite reverse_Permutation. apply argsort_perm. Qed.

Lemma reverse_argsort_sorted scores :
  Sorted (flip Rle) (map (score_at scores) (reverse (argsort scores))).
Proof.
  change (map (score_at scores) (reverse (argsort scores)))
    with (score_at scores <$> reverse (argsort scores)).
  rewrite fmap_reverse. apply Sorted_reverse, argsort_sorted.
Qed.

(** The brute-force scan: what it returns, for every [top_k]. *)
Lemma search_cosine_ok m v k :
  Forall (λ row, length row = length v) m →
  let scores := map (λ row, dot row v) m in
  let top := slice_to k (reverse (argsort scores)) in
  _search_cosine m v k
  = OK (map (score_at scores) top, map Z.of_nat top)
  ∧ Sorted (flip Rle) (map (score_at scores) top)
  ∧ ((Z.of_nat (length m) ≤ k)%Z → length top = length m)
  ∧ ((0 ≤ k)%Z → length top = Nat.min (Z.to_nat k) (length m)).
Proof.
  intros Hm scores top. unfold _search_cosine.
  rewrite np_dot_ok by done. split; [done|].
  assert (length (reverse (argsort scores)) = length m) as Hlen.
  { rewrite (Permutation_length (reverse_argsort_perm scores)).
    unfold scores. by rewrite length_seq, length_map. }
  split_and!.
  - subst top. destruct (slice_to_prefix k (reverse (argsort scores)))
      as [n ->].
    change (map (score_at scores) (take n (reverse (argsort scores))))
      with (score_at scores <$> take n (reverse (argsort scores))).
    rewrite fmap_take. apply Sorted_take, reverse_argsort_sorted.
  - intros Hk. subst top. rewrite slice_to_all by lia. done.
  - intros Hk. subst top. rewrite slice_to_nonneg by done.
    rewrite length_take. lia.
Qed.

End SearchFacts.

Section StrategiesAgree.
Import VectorIndex.
Context `{ArgSort} `{FlatSearch}.



End StrategiesAgree.

Section Ties.
Import Embedder VectorIndex.
Local Open Scope R_scope.



End Ties.


(** ** Embedding generation *)

Section GenerateFacts.
Import Float32 CacheManager Embedder SearchEngine.
Context `{SentenceTransformer}.

Lemma check_cache_ext db1 db2 id text dim :
  db1 !! id = db2 !! id →
  check_cache db1 id text dim = check_cache db2 id text dim.
Proof. intros E. unfold check_cache. by rewrite E. Qed.

Lemma embed_text_ok text :
  text ≠ ""%string → embed_text text = OK (encode (Utils.lower text)).
Proof. intros Hne. unfold embed_text. by rewrite decide_False. Qed.

Lemma embed_text_shape text emb :
  embed_text text = OK emb →
  Z.of_nat (length emb) = get_embedding_dimension ∧ Forall is_float32 emb.
Proof.
  unfold embed_text. case_decide; [done|]. intros [= <-]. split.
  - unfold get_embedding_dimension. by rewrite encode_length.
  - apply encode_float32.
Qed.

(** The accumulators only collect. *)
Lemma generate_loop_acc force now idx docs acc h m db :
  generate_loop force now idx docs acc h m db
  = match generate_loop force now idx docs [] 0 0 db with
    | (OK (l, h', m'), db') => (OK (acc ++ l, h + h', m + m')%nat, db')
    | (Err x, db') => (Err x, db')
    end.
Proof.
  revert idx acc h m db.
  induction docs as [|doc rest IH]; intros idx acc h m db; simpl.
  { by rewrite app_nil_r, !Nat.add_0_r. }
  destruct (if force then OK None else check_cache db _ _ _)
    as [[v|]|x]; [| |done].
  - rewrite (IH _ (acc ++ [v])), (IH _ ([] ++ [v])).
    destruct (generate_loop force now (S idx) rest [] 0 0 db)
      as [[[[l h'] m']|x] db']; [|done].
    rewrite <- app_assoc. simpl. by rewrite Nat.add_succ_r.
  - destruct (embed_text (content doc)) as [emb|x]; [|done].
    rewrite (IH _ (acc ++ [emb])), (IH _ ([] ++ [emb])).
    destruct (generate_loop force now (S idx) rest [] 0 0 _)
      as [[[[l h'] m']|x] db']; [|done].
    rewrite <- app_assoc. simpl. by rewrite Nat.add_succ_r.
Qed.

(** One turn of the loop, with empty accumulators. *)
Lemma generate_loop_cons force now idx doc rest db :
  generate_loop force now idx (doc :: rest) [] 0 0 db
  = match (if force then OK None
           else check_cache db (doc_id doc) (content doc)
                  get_embedding_dimension) with
    | Err x => (Err x, db)
    | OK (Some v) =>
        match generate_loop force now (S idx) rest [] 0 0 db with
        | (OK (l, h, m), db') => (OK (v :: l, S h, m), db')
        | (Err x, db') => (Err x, db')
        end
    | OK None =>
        match embed_text (content doc) with
        | Err x => (Err x, db)
        | OK emb =>
            match generate_loop force now (S idx) rest [] 0 0
                    (save_embedding db (doc_id doc) (content doc) emb
                       (now idx)) with
            | (OK (l, h, m), db') => (OK (emb :: l, h, S m), db')
            | (Err x, db') => (Err x, db')
            end
        end
    end.
Proof.
  simpl.
  destruct (if force then OK None else check_cache db _ _ _)
    as [[v|]|x]; [| |done].
  - by rewrite generate_loop_acc.
  - destruct (embed_text (content doc)) as [emb|x]; [|done].
    by rewrite generate_loop_acc.
Qed.

(** The loop writes only rows of the documents it visits. *)
Lemma generate_loop_frame force now idx docs acc h m db r db' id :
  generate_loop force now idx docs acc h m db = (r, db') →
  id ∉ map doc_id docs → db' !! id = db !! id.
Proof.
  revert idx acc h m db.
  induction docs as [|doc rest IH]; intros idx acc h m db; simpl.
  { by intros [= _ <-]. }
  intros Hrun Hid. apply not_elem_of_cons in Hid as [Hne Hid].
  destruct (if force then OK None else check_cache db _ _ _)
    as [[v|]|x]; [| |by injection Hrun as _ <-].
  - by eapply IH.
  - destruct (embed_text (content doc)) as [emb|x];
      [|by injection Hrun as _ <-].
    rewrite (IH _ _ _ _ _ Hrun Hid).
    unfold save_embedding. by rewrite lookup_insert_ne.
Qed.

(** With well-formed rows and non-empty texts the loop completes, and
    returns one vector of the model's dimension per document. *)
Lemma generate_loop_ok force now idx docs db :
  cache_wf db → Forall (λ doc, content doc ≠ ""%string) docs →
  ∃ l h m db',
    generate_loop force now idx docs [] 0 0 db = (OK (l, h, m), db')
    ∧ length l = length docs
    ∧ Forall (λ v, length v = get_sentence_embedding_dimension) l
    ∧ cache_wf db'.
Proof.
  intros Hwf Hdocs. revert idx db Hwf.
  induction Hdocs as [|doc rest Hdoc _ IH]; intros idx db Hwf.
  { exists [], 0%nat, 0%nat, db. by repeat split. }
  rewrite generate_loop_cons.
  assert (∃ c, (if force then OK None
                else check_cache db (doc_id doc) (content doc)
                       get_embedding_dimension) = OK c
               ∧ ∀ v, c = Some v →
                      length v = get_sentence_embedding_dimension)
    as (c & -> & Hc).
  { destruct force; [exists None; by split|].
    destruct (check_cache_outcome db (doc_id doc) (content doc)
                get_embedding_dimension Hwf) as [(v & Hv & Hl)|Hv].
    - exists (Some v). split; [done|]. intros v' [= <-].
      unfold get_embedding_dimension in Hl. lia.
    - exists None. by split. }
  destruct c as [v|].
  - destruct (IH (S idx) db Hwf) as (l & h & m & db' & -> & Hl & Hs & Hwf').
    exists (v :: l), (S h), m, db'. split_and!; try done.
    + simpl. by rewrite Hl.
    + constructor; [by apply Hc | done].
  - rewrite embed_text_ok by done.
    destruct (IH (S idx)
                (save_embedding db (doc_id doc) (content doc)
                   (encode (Utils.lower (content doc))) (now idx)))
      as (l & h & m & db' & -> & Hl & Hs & Hwf');
      [by apply cache_wf_save|].
    exists (encode (Utils.lower (content doc)) :: l), h, (S m), db'.
    split_and!; try done.
    + simpl. by rewrite Hl.
    + constructor; [apply encode_length | done].
Qed.



End GenerateFacts.

Section GenerateTwice.
Import Float32 CacheManager Embedder SearchEngine.
Context `{SentenceTransformer}.

(** Generation completes on a cache of well-formed rows when there are
    documents and none is empty. *)
Lemma generate_embeddings_ok (e : search_engine) force now :
  cache_wf (cache_manager e) → documents e ≠ [] →
  Forall (λ doc, content doc ≠ ""%string) (documents e) →
  ∃ e' l,
    generate_embeddings e force now = (OK (), e')
    ∧ embeddings e' = Some (np_array l)
    ∧ length l = length (documents e)
    ∧ Forall (λ v, length v = get_sentence_embedding_dimension) l
    ∧ documents e' = documents e ∧ use_faiss e' = use_faiss e
    ∧ faiss_index e' = faiss_index e ∧ cache_wf (cache_manager e').
Proof.
  intros Hwf Hne Hdocs.
  unfold generate_embeddings, generate_embeddings_list.
  rewrite decide_False by (by destruct (documents e)).
  destruct (generate_loop_ok force now 0 (documents e) (cache_manager e)
              Hwf Hdocs) as (l & h & m & db' & -> & Hl & Hs & Hwf').
  eexists _, l. by split_and!.
Qed.


End GenerateTwice.

(** ** The engine: lifecycle and queries *)

Section EngineFacts.
Import Float32 CacheManager Utils Embedder VectorIndex SearchEngine.
Context `{SentenceTransformer} `{ArgSort} `{FlatSearch}.

Lemma mapM_ok {A B} (f : A → result B) l :
  Forall (λ a, ∃ b, f a = OK b) l →
  ∃ bs, mapM f l = OK bs ∧ length bs = length l.
Proof.
  induction 1 as [|a l [b Hb] _ (bs & Hbs & Hl)]; simpl.
  - by exists [].
  - rewrite Hb. simpl. rewrite Hbs. simpl. exists (b :: bs).
    split; [done | simpl; by rewrite Hl].
Qed.

Lemma mapM_lookup {A B} (f : A → result B) l bs i a :
  mapM f l = OK bs → l !! i = Some a →
  ∃ b, bs !! i = Some b ∧ f a = OK b.
Proof.
  revert bs i. induction l as [|a' l IH]; intros bs i; simpl; [done|].
  destruct (f a') as [b'|] eqn:Hb; simpl; [|done].
  destruct (mapM f l) as [bs'|]; simpl; [|done].
  intros [= <-]. destruct i as [|i]; simpl.
  - intros [= <-]. eauto.
  - by apply IH.
Qed.

Lemma list_getitem_nonneg {A} (l : list A) (i : nat) x :
  l !! i = Some x → list_getitem l (Z.of_nat i) = OK x.
Proof.
  intros Hx. unfold list_getitem. cbv zeta.
  rewrite (decide_False (P := (Z.of_nat i < 0)%Z)) by lia.
  rewrite (decide_False (P := (Z.of_nat i < 0)%Z)) by lia.
  by rewrite Nat2Z.id, Hx.
Qed.

(** [l[-1]] is the last element. *)
Lemma list_getitem_minus_one {A} (l : list A) x :
  last l = Some x → list_getitem l (-1) = OK x.
Proof.
  intros Hx. unfold list_getitem. cbv zeta.
  rewrite (decide_True (P := (-1 < 0)%Z)) by lia.
  assert (length l ≠ 0)%nat by (by destruct l).
  rewrite decide_False by lia.
  replace (Z.to_nat (-1 + Z.of_nat (length l))) with (pred (length l))
    by lia.
  by rewrite <- last_lookup, Hx.
Qed.

Lemma build_result_doc e kws r idx sc doc :
  list_getitem (documents e) idx = OK doc →
  ∃ res, build_result e kws (r, (idx, sc)) = OK res
         ∧ rank res = (r + 1)%nat ∧ result_doc_id res = doc_id doc
         ∧ score res = sc.
Proof. intros Hd. unfold build_result. rewrite Hd. simpl. eauto. Qed.

Lemma query_embedding_length q :
  length (hd [] (normalize_embeddings [map to_R q])) = length q.
Proof. simpl. by rewrite !length_map. Qed.

Lemma search_not_ready e query k :
  embeddings e = None →
  search e query k
  = Err (ValueError "Search index not built. Call build_vector_index() first.").
Proof. intros E. unfold search. by rewrite E. Qed.

Lemma search_empty_query e k :
  ∃ msg, search e "" k = Err (ValueError msg).
Proof.
  unfold search. destruct (embeddings e); eauto.
Qed.

(** The brute-force path answers from whatever matrix [embeddings]
    holds. *)
Lemma search_cosine_path e m query k :
  embeddings e = Some m → use_faiss e = false → query ≠ ""%string →
  Forall (λ row, length row = get_sentence_embedding_dimension) m →
  (length m ≤ length (documents e))%nat →
  ∃ rs, search e query k = OK rs ∧ length rs = length (slice_to k m).
Proof.
  intros Em Ef Hq Hm Hdocs. unfold search. rewrite Em, Ef.
  rewrite embed_text_ok by done. simpl.
  set (qe := map _ (map to_R _)).
  assert (Forall (λ row, length row = length qe) m) as Hshape.
  { eapply Forall_impl; [exact Hm|]. intros row ->.
    unfold qe. by rewrite !length_map, encode_length. }
  destruct (search_cosine_ok m qe k Hshape) as (-> & _ & _).
  simpl. set (scores := map _ m).
  set (top := slice_to k (reverse (argsort scores))).
  assert (length (reverse (argsort scores)) = length m) as Hlen.
  { rewrite (Permutation_length (reverse_argsort_perm scores)).
    unfold scores. by rewrite length_seq, length_map. }
  assert (length top = length (slice_to k m)) as Htop.
  { unfold top, slice_to. case_decide; rewrite !length_take, Hlen; done. }
  assert (Forall (λ i, i < length m)%nat top) as Hbound.
  { destruct (slice_to_prefix k (reverse (argsort scores))) as [n Hn].
    unfold top. rewrite Hn. apply Forall_take.
    eapply perm_seq_bound. rewrite reverse_argsort_perm.
    unfold scores. by rewrite length_map. }
  destruct (mapM_ok (build_result e (extract_keywords query))
              (zip (seq 0 (length (map Z.of_nat top)))
                 (zip (map Z.of_nat top) (map (score_at scores) top))))
    as (rs & -> & Hrs).
  - apply Forall_forall. intros [r [idx sc]] Hin.
    apply elem_of_zip_r, elem_of_zip_l in Hin.
    apply list_elem_of_fmap in Hin as (i & -> & Hi).
    rewrite Forall_forall in Hbound. apply Hbound in Hi.
    destruct (lookup_lt_is_Some_2 (documents e) i) as [doc Hdoc]; [lia|].
    destruct (build_result_doc e (extract_keywords query) r
                (Z.of_nat i) sc doc) as (res & -> & _);
      [by apply list_getitem_nonneg | eauto].
  - exists rs. split; [done|].
    rewrite Hrs, length_zip, length_seq, length_zip, !length_map. lia.
Qed.

(** The flat-index path returns [top_k] results whatever the number of
    documents. *)
Lemma search_faiss_path e m index query k :
  embeddings e = Some m → use_faiss e = true →
  faiss_index e = Some index → d index = get_sentence_embedding_dimension →
  (ntotal index ≤ length (documents e))%nat → documents e ≠ [] →
  query ≠ ""%string → (0 < k)%Z →
  ∃ rs, search e query k = OK rs ∧ length rs = Z.to_nat k
        ∧ ((ntotal index < Z.to_nat k)%nat →
           ∃ res doc, rs !! ntotal index = Some res
                      ∧ last (documents e) = Some doc
                      ∧ result_doc_id res = doc_id doc
                      ∧ score res = FLT_LOWEST).
Proof.
  intros Em Ef Ei Hd Hn Hdocs Hq Hk. unfold search. rewrite Em, Ef, Ei.
  rewrite embed_text_ok by done. simpl.
  set (qe := map _ (map to_R _)).
  unfold faiss_search.
  rewrite decide_False
    by (intros Hne; apply Hne; unfold qe;
        by rewrite !length_map, encode_length).
  rewrite decide_False by lia. simpl.
  set (scores := map _ (xb index)).
  set (found := take (Z.to_nat k) (knn_order scores)).
  set (missing := (Z.to_nat k - length found)%nat).
  assert (length (knn_order scores) = ntotal index) as Hlen.
  { rewrite (Permutation_length (knn_perm scores)).
    unfold scores, ntotal. by rewrite length_seq, length_map. }
  assert (length found = Nat.min (Z.to_nat k) (ntotal index)) as Hfound.
  { unfold found. by rewrite length_take, Hlen. }
  assert (Forall (λ i, i < ntotal index)%nat found) as Hbound.
  { unfold found. apply Forall_take. eapply perm_seq_bound.
    rewrite knn_perm. unfold scores, ntotal. by rewrite length_map. }
  destruct (last (documents e)) as [lastdoc|] eqn:Hlast;
    [|by apply last_None in Hlast].
  set (items := zip (seq 0 _) (zip _ _)).
  assert (length items = Z.to_nat k) as Hitems.
  { unfold items. rewrite length_zip, length_seq, length_zip, !length_app,
      !length_map, !length_replicate. unfold missing. lia. }
  destruct (mapM_ok (build_result e (extract_keywords query)) items)
    as (rs & Hrs & Hl).
  - apply Forall_forall. intros [r [idx sc]] Hin.
    apply elem_of_zip_r, elem_of_zip_l in Hin.
    apply elem_of_app in Hin as [Hin|Hin].
    + apply list_elem_of_fmap in Hin as (i & -> & Hi).
      rewrite Forall_forall in Hbound. apply Hbound in Hi.
      destruct (lookup_lt_is_Some_2 (documents e) i) as [doc Hdoc]; [lia|].
      destruct (build_result_doc e (extract_keywords query) r
                  (Z.of_nat i) sc doc) as (res & -> & _);
        [by apply list_getitem_nonneg | eauto].
    + apply elem_of_replicate in Hin as [-> _].
      destruct (build_result_doc e (extract_keywords query) r
                  (-1)%Z sc lastdoc) as (res & -> & _);
        [by apply list_getitem_minus_one | eauto].
  - rewrite Hrs. exists rs. split; [done|]. split; [lia|].
    intros Hpad.
    assert (length found = ntotal index) as Hfound' by lia.
    assert (items !! ntotal index
            = Some (ntotal index, ((-1)%Z, FLT_LOWEST))) as Hitem.
    { unfold items. apply lookup_zip_with_Some.
      exists (ntotal index), ((-1)%Z, FLT_LOWEST). split; [done|]. split.
      - rewrite lookup_seq. split; [done|].
        rewrite length_app, length_map, length_replicate.
        unfold missing. lia.
      - apply lookup_zip_with_Some. exists (-1)%Z, FLT_LOWEST.
        split; [done|]. split.
        + rewrite lookup_app_r by (rewrite length_map; lia).
          rewrite length_map, Hfound', Nat.sub_diag.
          apply lookup_replicate. split; [done|]. unfold missing. lia.
        + rewrite lookup_app_r by (rewrite length_map; lia).
          rewrite length_map, Hfound', Nat.sub_diag.
          apply lookup_replicate. split; [done|]. unfold missing. lia. }
    destruct (mapM_lookup _ _ _ _ _ Hrs Hitem) as (res & Hres & Hb).
    destruct (build_result_doc e (extract_keywords query) (ntotal index)
                (-1)%Z FLT_LOWEST lastdoc) as (res' & Hb' & _ & Hid & Hsc);
      [by apply list_getitem_minus_one|].
    rewrite Hb in Hb'. injection Hb' as ->.
    exists res', lastdoc. by split_and!.
Qed.

End EngineFacts.

(** ** The lifecycle on the sample documents *)

Lemma stub_encode_length text : length (Sample.stub_encode text) = 2%nat.
Proof. unfold Sample.stub_encode. by destruct (Nat.even _). Qed.

Lemma stub_encode_float32 text :
  Forall Float32.is_float32 (Sample.stub_encode text).
Proof.
  unfold Sample.stub_encode, Float32.is_float32, Sample.one.
  destruct (Nat.even _); repeat constructor; lia.
Qed.

Definition stub_model : Embedder.SentenceTransformer := {|
  Embedder.encode := Sample.stub_encode;
  Embedder.get_sentence_embedding_dimension := 2;
  Embedder.encode_length := stub_encode_length;
  Embedder.encode_float32 := stub_encode_float32
|}.


Section Lifecycle.
Import Float32 CacheManager Utils Embedder VectorIndex SearchEngine.

#[local] Existing Instance stub_model.
#[local] Existing Instance stable_argsort.
#[local] Existing Instance stable_flat_search.

Lemma np_array_shape (l : list (list N)) n :
  Forall (λ v, length v = n) l → Forall (λ row, length row = n) (np_array l).
Proof.
  intros Hl. unfold np_array. apply Forall_fmap.
  eapply Forall_impl; [exact Hl|]. intros v Hv. simpl. by rewrite length_map.
Qed.

Lemma normalize_embeddings_shape m n :
  Forall (λ row, length row = n) m →
  Forall (λ row, length row = n) (normalize_embeddings m).
Proof.
  intros Hm. rewrite normalize_embeddings_rows. apply Forall_fmap.
  eapply Forall_impl; [exact Hm|]. intros row Hrow. simpl.
  by rewrite normalize_row_length.
Qed.

Lemma sample_generate use_faiss_flag :
  ∃ e2 l,
    generate_embeddings
      (load_documents (init use_faiss_flag true ∅) Sample.docs).1
      false Sample.now = (OK (), e2)
    ∧ embeddings e2 = Some (np_array l) ∧ length l = 2%nat
    ∧ Forall (λ row, length row = 2%nat) (np_array l)
    ∧ documents e2 = Sample.docs
    ∧ use_faiss e2 = use_faiss_flag && true ∧ faiss_index e2 = None.
Proof.
  destruct (generate_embeddings_ok
              (load_documents (init use_faiss_flag true ∅) Sample.docs).1
              false Sample.now)
    as (e2 & l & Hg & He & Hl & Hs & Hd & Hu & Hi & _).
  - apply cache_wf_empty.
  - done.
  - repeat constructor; done.
  - exists e2, l. split_and!; try done. by apply np_array_shape.
Qed.

(** C3, at the failing input.  With the brute-force strategy, after
    [load_documents] and [generate_embeddings] and without
    [build_vector_index], [search] does not fail: it returns a result for
    each document. *)
Theorem search_before_build_answers :
  ∃ e2 rs,
    generate_embeddings
      (load_documents (init false true ∅) Sample.docs).1
      false Sample.now = (OK (), e2)
    ∧ faiss_index e2 = None
    ∧ search e2 "machine learning" 5 = OK rs
    ∧ length rs = 2%nat.
Proof.
  destruct (sample_generate false) as (e2 & l & Hg & He & Hl & Hs & Hd & Hu & Hi).
  destruct (search_cosine_path e2 (np_array l) "machine learning" 5)
    as (rs & Hrs & Hlen); try done.
  - rewrite Hd. unfold np_array. rewrite length_map, Hl. done.
  - exists e2, rs. split_and!; try done.
    rewrite Hlen, slice_to_all; unfold np_array; rewrite length_map, Hl;
      [done | lia].
Qed.

End Lifecycle.

Section BuiltEngines.
Import Float32 CacheManager Utils Embedder VectorIndex SearchEngine.

#[local] Existing Instance stub_model.
#[local] Existing Instance stable_argsort.
#[local] Existing Instance stable_flat_search.

Lemma sample_built_cosine :
  ∃ e2 e3 m,
    generate_embeddings
      (load_documents (init false true ∅) Sample.docs).1
      false Sample.now = (OK (), e2)
    ∧ build_vector_index e2 = OK e3
    ∧ embeddings e3 = Some m ∧ length m = 2%nat
    ∧ Forall (λ row, length row = 2%nat) m
    ∧ documents e3 = Sample.docs ∧ use_faiss e3 = false.
Proof.
  destruct (sample_generate false)
    as (e2 & l & Hg & He & Hl & Hs & Hd & Hu & Hi).
  exists e2, (_prepare_cosine_similarity e2 (np_array l)),
    (normalize_embeddings (np_array l)).
  split_and!; try done.
  - unfold build_vector_index. by rewrite He, Hu.
  - rewrite normalize_embeddings_rows. unfold np_array.
    by rewrite !length_map.
  - by apply normalize_embeddings_shape.
Qed.

Lemma sample_built_faiss :
  ∃ e2 e3 m index,
    generate_embeddings
      (load_documents (init true true ∅) Sample.docs).1
      false Sample.now = (OK (), e2)
    ∧ build_vector_index e2 = OK e3
    ∧ embeddings e3 = Some m ∧ faiss_index e3 = Some index
    ∧ d index = 2%nat ∧ ntotal index = 2%nat
    ∧ documents e3 = Sample.docs ∧ use_faiss e3 = true.
Proof.
  destruct (sample_generate true)
    as (e2 & l & Hg & He & Hl & Hs & Hd & Hu & Hi).
  exists e2, (_build_faiss_index e2 (np_array l)), (np_array l).
  eexists. split_and!; try done.
  - unfold build_vector_index. by rewrite He, Hu.
  - simpl.
    apply normalize_embeddings_shape in Hs.
    destruct (normalize_embeddings (np_array l)) as [|row rows] eqn:E.
    + apply (f_equal length) in E.
      rewrite normalize_embeddings_rows in E. unfold np_array in E.
      rewrite !length_map, Hl in E. done.
    + by inversion Hs.
  - unfold ntotal. simpl. rewrite normalize_embeddings_rows.
    unfold np_array. by rewrite !length_map.
Qed.

(** C7, at the failing input.  With the flat index built over the two
    sample documents, [search] with [top_k = 3] returns three results,
    not two: the third comes from the unfilled slot of the index, whose
    label [-1] reads the last document again, with the lowest score. *)
Theorem search_faiss_pads_results :
  ∃ e2 e3 rs res,
    generate_embeddings
      (load_documents (init true true ∅) Sample.docs).1
      false Sample.now = (OK (), e2)
    ∧ build_vector_index e2 = OK e3
    ∧ length (documents e3) = 2%nat
    ∧ search e3 "machine learning" 3 = OK rs
    ∧ length rs = 3%nat
    ∧ rs !! 2%nat = Some res
    ∧ result_doc_id res = "doc_002"%string
    ∧ score res = FLT_LOWEST.
Proof.
  destruct sample_built_faiss
    as (e2 & e3 & m & index & Hg & Hb & He & Hi & Hd & Hn & Hdocs & Hu).
  destruct (search_faiss_path e3 m index "machine learning" 3)
    as (rs & Hrs & Hlen & Hpad); try done.
  - rewrite Hn, Hdocs. done.
  - by rewrite Hdocs.
  - destruct Hpad as (res & doc & Hres & Hlast & Hid & Hsc);
      [rewrite Hn; simpl; lia|].
    rewrite Hdocs in Hlast. injection Hlast as <-.
    exists e2, e3, rs, res. rewrite Hn in Hres.
    split_and!; try done. by rewrite Hdocs.
Qed.

(** On the same documents the brute-force scan returns two results for
    [top_k = 3]. *)
Lemma search_cosine_large_top_k :
  ∃ e2 e3 rs,
    generate_embeddings
      (load_documents (init false true ∅) Sample.docs).1
      false Sample.now = (OK (), e2)
    ∧ build_vector_index e2 = OK e3
    ∧ search e3 "machine learning" 3 = OK rs
    ∧ length rs = 2%nat.
Proof.
  destruct sample_built_cosine
    as (e2 & e3 & m & Hg & Hb & He & Hl & Hs & Hdocs & Hu).
  destruct (search_cosine_path e3 m "machine learning" 3)
    as (rs & Hrs & Hlen); try done.
  - rewrite Hdocs, Hl. done.
  - exists e2, e3, rs. split_and!; try done.
    rewrite Hlen, slice_to_all; [done | lia].
Qed.

(** Against C8 as stated.  A negative [top_k] and a blank query are
    answered, not rejected:
    [top_k = -1] drops the last of the two results, and the query of one
    space returns both. *)
Lemma search_accepts_bad_arguments :
  ∃ e2 e3 rs1 rs2,
    generate_embeddings
      (load_documents (init false true ∅) Sample.docs).1
      false Sample.now = (OK (), e2)
    ∧ build_vector_index e2 = OK e3
    ∧ search e3 "machine learning" (-1) = OK rs1 ∧ length rs1 = 1%nat
    ∧ Api.blank " " = true
    ∧ search e3 " " 5 = OK rs2 ∧ length rs2 = 2%nat.
Proof.
  destruct sample_built_cosine
    as (e2 & e3 & m & Hg & Hb & He & Hl & Hs & Hdocs & Hu).
  destruct (search_cosine_path e3 m "machine learning" (-1))
    as (rs1 & Hrs1 & Hlen1); try done.
  { rewrite Hdocs, Hl. done. }
  destruct (search_cosine_path e3 m " " 5)
    as (rs2 & Hrs2 & Hlen2); try done.
  { rewrite Hdocs, Hl. done. }
  exists e2, e3, rs1, rs2. split_and!; try done.
  - rewrite Hlen1. unfold slice_to. rewrite decide_False by lia.
    rewrite length_take, Hl. done.
  - rewrite Hlen2, slice_to_all; [done | lia].
Qed.

End BuiltEngines.

Section Validation.
Import Utils Embedder VectorIndex SearchEngine Api.
Context `{SentenceTransformer} `{ArgSort} `{FlatSearch}.

(** C8, as the code has it.  [SearchEngine.search] raises a [ValueError]
    on the empty query, whatever [top_k].  The other checks stand in front
    of it, in the API: the request model refuses the empty query and a
    [top_k] outside 1..50, and [search_documents] answers 400 to a blank
    query. *)
Theorem search_validation (query : string) (top_k : Z) :
  (∀ e, ∃ msg, search e "" top_k = Err (ValueError msg))
  ∧ (∀ engine, query = ""%string ∨ ¬ (1 ≤ top_k ≤ 50)%Z →
       search_documents engine query top_k = Unprocessable422)
  ∧ (∀ e, query ≠ ""%string → blank query = true → (1 ≤ top_k ≤ 50)%Z →
       search_documents (Some e) query top_k
       = BadRequest400 "Query cannot be empty").
Proof.
  split_and!.
  - intros e. apply search_empty_query.
  - intros engine Hbad. unfold search_documents, request_valid.
    destruct Hbad as [-> | Hk]; [done|].
    by rewrite (bool_decide_eq_false_2 _ Hk), andb_false_r.
  - intros e Hq Hblank Hk. unfold search_documents, request_valid.
    rewrite (bool_decide_eq_true_2 _ Hk), andb_true_r.
    rewrite bool_decide_eq_true_2 by (destruct query; simpl; [done | lia]).
    simpl. by rewrite Hblank.
Qed.

End Validation.

(** ** The norms of the vectors an index holds *)

Section IndexNorms.
Import Float32 CacheManager Embedder VectorIndex SearchEngine.
Local Open Scope R_scope.


(** The pattern [0x3f800000] is the number 1. *)
Lemma to_R_one : to_R Sample.one = 1.
Proof.
  unfold to_R, Sample.one. simpl.
  change (Z.pos (2 ^ 23)) with 8388608%Z. lra.
Qed.

Lemma norm_zero_vector : norm [0; 0] = 0.
Proof.
  unfold norm. simpl. replace (0 * 0 + (0 * 0 + 0)) with 0 by lra.
  apply sqrt_0.
Qed.



End IndexNorms.


(** ** Keyword overlap *)

Section OverlapFacts.
Import Utils.

#[local] Instance string_le_total : Total string_le.
Proof. intros s1 s2. apply String.leb_total. Qed.

Lemma sorted_sorted l : Sorted string_le (sorted l).
Proof. apply (Sorted_merge_sort string_le). Qed.

Lemma sorted_perm l : sorted l ≡ₚ l.
Proof. apply (merge_sort_Permutation string_le). Qed.

Local Open Scope Q_scope.

Lemma round_half_even_bounds q :
  (Qfloor q ≤ round_half_even q ≤ Qfloor q + 1)%Z
  ∧ inject_Z (round_half_even q) - (1 # 2) <= q
  ∧ q <= inject_Z (round_half_even q) + (1 # 2).
Proof.
  unfold round_half_even.
  pose proof (Qfloor_le q) as Hlo. pose proof (Qlt_floor q) as Hhi.
  rewrite inject_Z_plus in Hhi. change (inject_Z 1) with 1 in Hhi.
  destruct (Qcompare_spec (q - inject_Z (Qfloor q)) (1 # 2)) as [He|Hl|Hg].
  - destruct (Z.even (Qfloor q)).
    + split; [lia|]. split; lra.
    + split; [lia|]. rewrite inject_Z_plus. change (inject_Z 1) with 1.
      split; lra.
  - split; [lia|]. split; lra.
  - split; [lia|]. rewrite inject_Z_plus. change (inject_Z 1) with 1.
    split; lra.
Qed.

(** Rounding to an integer stays between the integers around. *)
Lemma round_half_even_between q (lo hi : Z) :
  inject_Z lo <= q → q <= inject_Z hi →
  (lo ≤ round_half_even q ≤ hi)%Z.
Proof.
  intros Hlo Hhi.
  destruct (round_half_even_bounds q) as ((Hf1 & Hf2) & Ha & Hb).
  assert (lo ≤ Qfloor q)%Z as Hl.
  { rewrite <- (Qfloor_Z lo). by apply Qfloor_resp_le. }
  split; [lia|].
  destruct (Z_le_gt_dec (round_half_even q) hi) as [|Hgt]; [done|].
  exfalso.
  assert (hi ≤ Qfloor q)%Z as Hge by lia.
  assert (inject_Z hi <= inject_Z (Qfloor q)) as Hi by (by rewrite <- Zle_Qle).
  pose proof (Qfloor_le q) as Hfl.
  assert (q == inject_Z hi) as Heq by lra.
  assert (Qfloor q = hi) as Hfq.
  { rewrite <- (Qfloor_Z hi). by apply Qfloor_comp. }
  revert Hgt. unfold round_half_even. rewrite Hfq.
  destruct (Qcompare_spec (q - inject_Z hi) (1 # 2)) as [He|_|Hg];
    [exfalso; lra | lia | exfalso; lra].
Qed.

Lemma Qpower_2_pos (z : Z) : 0 < 2 ^ z.
Proof. by apply Qpower_0_lt. Qed.

Lemma Qpower_2_succ (z : Z) : 2 ^ (z + 1) == 2 * 2 ^ z.
Proof. rewrite Qpower_plus by done. change (2 ^ 1) with 2. ring. Qed.

Lemma inject_Z_pow2 (a : Z) : (0 ≤ a)%Z → inject_Z (2 ^ a) == 2 ^ a.
Proof. intros Ha. by rewrite Zpower_Qpower. Qed.

Lemma ilog2_spec q :
  0 < q → 2 ^ ilog2 q <= q ∧ q < 2 ^ (ilog2 q + 1).
Proof.
  intros Hq. unfold ilog2.
  destruct q as [n d]. simpl Qnum. simpl Qden.
  assert (0 < n)%Z as Hn by (unfold Qlt in Hq; simpl in Hq; lia).
  set (a := Z.log2 n). set (b := Z.log2 (Z.pos d)).
  destruct (Z.log2_spec n Hn) as [Ha1 Ha2]. fold a in Ha1, Ha2.
  destruct (Z.log2_spec (Z.pos d) eq_refl) as [Hb1 Hb2]. fold b in Hb1, Hb2.
  assert (0 ≤ a)%Z as Ha0 by apply Z.log2_nonneg.
  assert (0 ≤ b)%Z as Hb0 by apply Z.log2_nonneg.
  assert (n # d == inject_Z n / inject_Z (Z.pos d)) as Hnd
    by apply Qmake_Qdiv.
  assert (0 < inject_Z (Z.pos d)) as Hd by (rewrite <- (Zlt_Qlt 0); lia).
  assert (2 ^ a <= inject_Z n) as Qa1
    by (rewrite <- inject_Z_pow2 by done; by rewrite <- Zle_Qle).
  assert (inject_Z n < 2 * 2 ^ a) as Qa2.
  { rewrite <- Qpower_2_succ, <- inject_Z_pow2 by lia.
    rewrite <- Zlt_Qlt. by rewrite <- Z.add_1_r in Ha2. }
  assert (2 ^ b <= inject_Z (Z.pos d)) as Qb1
    by (rewrite <- inject_Z_pow2 by done; by rewrite <- Zle_Qle).
  assert (inject_Z (Z.pos d) < 2 * 2 ^ b) as Qb2.
  { rewrite <- Qpower_2_succ, <- inject_Z_pow2 by lia.
    rewrite <- Zlt_Qlt. by rewrite <- Z.add_1_r in Hb2. }
  assert (2 ^ a == 2 ^ (a - b) * 2 ^ b) as Hab.
  { rewrite <- Qpower_plus by done. by replace (a - b + b)%Z with a by lia. }
  pose proof (Qpower_2_pos (a - b)) as Hk.
  pose proof (Qpower_2_pos b) as Hpb.
  pose proof (Qpower_2_succ (a - b - 1)) as Hk1.
  replace (a - b - 1 + 1)%Z with (a - b)%Z in Hk1 by lia.
  pose proof (Qpower_2_pos (a - b - 1)) as Hkm.
  destruct (Qle_bool (2 ^ (a - b)) (n # d)) eqn:Hle.
  - apply Qle_bool_iff in Hle. split; [done|].
    rewrite Qpower_2_succ, Hnd.
    apply Qlt_shift_div_r; [done|]. nra.
  - assert (n # d < 2 ^ (a - b)) as Hlt.
    { apply Qnot_le_lt. intros H. apply Qle_bool_iff in H. congruence. }
    replace (a - b - 1 + 1)%Z with (a - b)%Z by lia.
    split; [|done].
    rewrite Hnd. apply Qle_shift_div_l; [done|]. nra.
Qed.

(** A number between 0 and 1 is rounded to a float between 0 and 1, at
    most [2^-53] away. *)
Lemma binary64_nearest_bounds q :
  0 <= q → q <= 1 →
  0 <= binary64_nearest q ∧ binary64_nearest q <= 1
  ∧ binary64_nearest q - (1 # 9007199254740992) <= q
  ∧ q <= binary64_nearest q + (1 # 9007199254740992).
Proof.
  intros H0 H1. unfold binary64_nearest.
  destruct (Qcompare_spec q 0) as [He|Hl|Hg].
  - split_and!; lra.
  - lra.
  - destruct (ilog2_spec q Hg) as [Hlo _].
    set (e := Z.max (ilog2 q) (-1022)).
    assert (e ≤ 0)%Z as He.
    { assert (ilog2 q ≤ 0)%Z; [|lia].
      apply (Qpower_le_compat_l_inv 2); [|done].
      change (2 ^ 0) with 1. lra. }
    set (ulp := 2 ^ (e - 52)).
    assert (0 < ulp) as Hu by apply Qpower_2_pos.
    assert (ulp * inject_Z (2 ^ (52 - e)) == 1) as Hone.
    { rewrite inject_Z_pow2 by lia. unfold ulp.
      rewrite <- Qpower_plus by done.
      by replace (e - 52 + (52 - e))%Z with 0%Z by lia. }
    assert (ulp <= 2 * (1 # 9007199254740992)) as Hsmall.
    { assert (2 ^ (-52) == 2 * (1 # 9007199254740992)) as <-
        by reflexivity.
      apply Qpower_le_compat_l; [lia | done]. }
    set (x := q / ulp).
    assert (q == x * ulp) as Hx by (unfold x; field; lra).
    destruct (round_half_even_bounds x) as (_ & Ha & Hb).
    destruct (round_half_even_between x 0 (2 ^ (52 - e))) as [Hm0 Hm1].
    { apply Qle_shift_div_l; [done|]. change (inject_Z 0) with 0. lra. }
    { apply Qle_shift_div_r; [done|]. rewrite Qmult_comm, Hone. done. }
    set (m := round_half_even x) in *.
    assert (0 <= inject_Z m) as Qm0
      by (change 0 with (inject_Z 0); by rewrite <- Zle_Qle).
    assert (inject_Z m <= inject_Z (2 ^ (52 - e))) as Qm1
      by (by rewrite <- Zle_Qle).
    split_and!; nra.
Qed.

(** [round(x, 3)] of a ratio is the float nearest to a number of
    thousandths, which is at most half a thousandth away from [x]. *)
Lemma round3_spec x :
  0 <= x → x <= 1 →
  ∃ k : Z, (0 ≤ k ≤ 1000)%Z ∧ round3 x = binary64_nearest (k # 1000)
           ∧ (k # 1000) - (1 # 2000) <= x ∧ x <= (k # 1000) + (1 # 2000).
Proof.
  intros H0 H1. exists (round_half_even (x * 1000)).
  destruct (round_half_even_bounds (x * 1000)) as (_ & Ha & Hb).
  destruct (round_half_even_between (x * 1000) 0 1000) as [Hk0 Hk1].
  { change (inject_Z 0) with 0. lra. }
  { change (inject_Z 1000) with 1000. lra. }
  set (k := round_half_even (x * 1000)) in *.
  split; [done|]. split; [done|].
  assert (k # 1000 == inject_Z k / 1000) as -> by apply Qmake_Qdiv.
  unfold Qdiv. change (/ 1000) with (1 # 1000). split; lra.
Qed.

Lemma thousandths_bounds (k : Z) :
  (0 ≤ k ≤ 1000)%Z → 0 <= k # 1000 ∧ k # 1000 <= 1.
Proof. intros Hk. unfold Qle. simpl. lia. Qed.

Lemma overlap_size_le (query_set doc_set : gset string) :
  (size (query_set ∩ doc_set) ≤ size query_set)%nat.
Proof. apply subseteq_size, intersection_subseteq_l. Qed.

Lemma exact_ratio_bounds q d : 0 <= exact_ratio q d ∧ exact_ratio q d <= 1.
Proof.
  unfold exact_ratio.
  destruct (decide _) as [Hs|Hs]; [|split; lra].
  pose proof (overlap_size_le (list_to_set q) (list_to_set d)) as Hle.
  unfold Qle. simpl.
  assert (Z.pos (Pos.of_nat (size (list_to_set q : gset string)))
          = Z.of_nat (size (list_to_set q : gset string))) as ->; [|lia].
  rewrite <- positive_nat_Z, Nat2Pos.id; [done | lia].
Qed.

(** The ratio that is rounded: the float nearest to the exact ratio. *)
Lemma overlap_ratio_float q d :
  overlap_ratio (compute_overlap q d)
  = round3 (binary64_nearest (exact_ratio q d)).
Proof.
  unfold compute_overlap, exact_ratio, truediv. simpl.
  by destruct (decide _).
Qed.

(** Against C9 as stated.  Three query keywords of which one is in the
    document: the ratio reported is the float 0.333, not one third. *)
Lemma overlap_ratio_is_rounded :
  let o := compute_overlap ["aaa"; "bbb"; "ccc"]%string ["aaa"]%string in
  overlap_count o = 1%nat ∧ query_keyword_count o = 3%nat
  ∧ overlap_ratio o = binary64_nearest (333 # 1000)
  ∧ ¬ overlap_ratio o == (1 # 3).
Proof. vm_compute. split_and!; try reflexivity. intros [=]. Qed.

(** The quotient is rounded before [round] sees it: one keyword of
    eighty is 0.0125, a tie that would go to 0.012, but the float nearest
    to 0.0125 lies above it and [round] returns 0.013. *)
Example round3_one_of_eighty :
  round3 (truediv 1 80) = binary64_nearest (13 # 1000)
  ∧ (1 # 80) < truediv 1 80
  ∧ round_half_even ((1 # 80) * 1000) = 12%Z.
Proof. vm_compute. split_and!; reflexivity. Qed.

(** C9, as the code has it.  [compute_overlap] reports the keywords that
    are in both lists, each once, in the order of [sorted], and their
    number.  The ratio it reports is the float quotient of the number of
    common keywords by the number of distinct query keywords, rounded by
    [round] to three decimals (0 when there is no query keyword): the
    float nearest to a number of thousandths [k/1000].  It lies between 0
    and 1, and within half a thousandth of the exact ratio, up to the
    rounding of the floats ([2^-52]). *)
Theorem compute_overlap_spec (query_keywords doc_keywords : list string) :
  let o := compute_overlap query_keywords doc_keywords in
  let exact := exact_ratio query_keywords doc_keywords in
  (∀ w, w ∈ overlapping_keywords o ↔ w ∈ query_keywords ∧ w ∈ doc_keywords)
  ∧ NoDup (overlapping_keywords o)
  ∧ Sorted string_le (overlapping_keywords o)
  ∧ overlap_count o = length (overlapping_keywords o)
  ∧ overlap_ratio o = round3 (binary64_nearest exact)
  ∧ (∃ k : Z, (0 ≤ k ≤ 1000)%Z
       ∧ overlap_ratio o = binary64_nearest (k # 1000)
       ∧ (k # 1000) - (1 # 2000) - (1 # 9007199254740992) <= exact
       ∧ exact <= (k # 1000) + (1 # 2000) + (1 # 9007199254740992))
  ∧ 0 <= overlap_ratio o ∧ overlap_ratio o <= 1
  ∧ overlap_ratio o - (1 # 2000) - (1 # 4503599627370496) <= exact
  ∧ exact <= overlap_ratio o + (1 # 2000) + (1 # 4503599627370496)
  ∧ (query_keywords = [] → overlap_ratio o == 0).
Proof.
  intros o exact.
  assert (overlap_ratio o = round3 (binary64_nearest exact)) as Hr
    by apply overlap_ratio_float.
  destruct (exact_ratio_bounds query_keywords doc_keywords) as [H0 H1].
  fold exact in H0, H1.
  destruct (binary64_nearest_bounds exact H0 H1) as (Hd0 & Hd1 & Hd2 & Hd3).
  destruct (round3_spec _ Hd0 Hd1) as (k & Hk & Hk1 & Hk2 & Hk3).
  destruct (thousandths_bounds k Hk) as [Ht0 Ht1].
  destruct (binary64_nearest_bounds _ Ht0 Ht1) as (Hf0 & Hf1 & Hf2 & Hf3).
  rewrite <- Hk1, <- Hr in Hf0, Hf1, Hf2, Hf3.
  split_and!.
  - intros w. unfold o, compute_overlap. cbn [overlapping_keywords].
    rewrite sorted_perm, elem_of_elements, elem_of_intersection,
      !elem_of_list_to_set. done.
  - unfold o, compute_overlap. cbn [overlapping_keywords].
    rewrite sorted_perm. apply NoDup_elements.
  - apply sorted_sorted.
  - unfold o, compute_overlap. cbn [overlapping_keywords overlap_count].
    by rewrite sorted_perm.
  - exact Hr.
  - exists k. rewrite Hr, Hk1. split_and!; [lia | lia | done | lra | lra].
  - exact Hf0.
  - exact Hf1.
  - lra.
  - lra.
  - intros ->. vm_compute. done.
Qed.

End OverlapFacts.

(** ** The theorems at concrete inputs *)

Section Witnesses.
Import Float32 CacheManager Utils Embedder VectorIndex SearchEngine Api.

(** C1 on the texts of the invalidation test. *)
Lemma check_cache_spec_witness :
  cache_wf ∅
  ∧ compute_hash "Original text" ≠ compute_hash "Modified text"
  ∧ check_cache
      (save_embedding ∅ "test_doc_002" "Original text" [Sample.one; 0] "")
      "test_doc_002" "Modified text" 2 = OK None.
Proof.
  assert (compute_hash "Original text" ≠ compute_hash "Modified text")
    as Hne by (intros E; vm_compute in E; discriminate E).
  split; [apply cache_wf_empty|]. split; [exact Hne|].
  exact (proj2 (proj2 (check_cache_spec ∅ "test_doc_002" "Original text" 2
                         cache_wf_empty))
           "Original text"%string "Modified text"%string
           [Sample.one; 0] ""%string Hne).
Defined.

(** C6 on a vector of two entries, [1.0] and the [float32] nearest to pi. *)
Lemma save_check_roundtrip_witness :
  Forall is_float32 [Sample.one; 0x40490fdb]
  ∧ check_cache
      (save_embedding ∅ "test_doc_001"
         "This is a test document for caching." [Sample.one; 0x40490fdb] "")
      "test_doc_001" "This is a test document for caching." 2
    = OK (Some [Sample.one; 0x40490fdb]).
Proof.
  assert (Forall is_float32 [Sample.one; 0x40490fdb]) as Hv
    by (repeat constructor; unfold is_float32, Sample.one; lia).
  split; [exact Hv|].
  exact (proj2 (proj2 (proj2
           (save_check_roundtrip ∅ "test_doc_001"
              "This is a test document for caching."
              [Sample.one; 0x40490fdb] "" Hv)))).
Defined.


End Witnesses.

Section RealWitnesses.
Import Float32 CacheManager Utils Embedder VectorIndex SearchEngine Api.
Local Open Scope R_scope.



(** C8 on a query of one space and on [top_k = 0]. *)
Lemma search_validation_witness :
  (" " ≠ "" ∧ blank " " = true ∧ (1 ≤ 5 ≤ 50)%Z
   ∧ @search_documents stub_model stable_argsort stable_flat_search
       (Some (init false true ∅)) " " 5
     = BadRequest400 "Query cannot be empty")
  ∧ (¬ (1 ≤ 0 ≤ 50)%Z
     ∧ @search_documents stub_model stable_argsort stable_flat_search
         None "machine learning" 0
       = Unprocessable422).
Proof.
  assert (" " ≠ ""%string) as Hq by discriminate.
  assert (1 ≤ 5 ≤ 50)%Z as Hk by lia.
  assert (¬ (1 ≤ 0 ≤ 50)%Z) as Hk0 by lia.
  split.
  - split; [exact Hq|]. split; [reflexivity|]. split; [exact Hk|].
    exact (proj2 (proj2 (@search_validation stub_model stable_argsort
                           stable_flat_search " " 5))
             (init false true ∅) Hq eq_refl Hk).
  - split; [exact Hk0|].
    exact (proj1 (proj2 (@search_validation stub_model stable_argsort
                           stable_flat_search "machine learning" 0))
             None (or_intror Hk0)).
Defined.

(** C9 on the keyword lists of the example in [utils.py]. *)
Lemma compute_overlap_spec_witness :
  let o := compute_overlap ["machine"; "learning"; "algorithms"]%string
             ["machine"; "learning"; "neural"; "networks"]%string in
  ("learning"%string ∈ overlapping_keywords o)
  ∧ overlap_count o = length (overlapping_keywords o)
  ∧ (0 <= overlap_ratio o)%Q ∧ (overlap_ratio o <= 1)%Q.
Proof.
  intros o.
  destruct (compute_overlap_spec
              ["machine"; "learning"; "algorithms"]%string
              ["machine"; "learning"; "neural"; "networks"]%string)
    as (Hin & _ & _ & Hc & _ & _ & H0 & H1 & _).
  split.
  - apply Hin. split; apply list_elem_of_In; simpl; auto.
  - split; [exact Hc|]. split; [exact H0 | exact H1].
Defined.

(** C10 on a matrix whose first row is zero. *)
Lemma normalize_embeddings_safe_witness :
  let m := [[0; 0]; [3; 4]] in
  m !! 0%nat = Some [0; 0] ∧ norm [0; 0] = 0
  ∧ normalize_embeddings m !! 0%nat = Some [0; 0]
  ∧ where_zero_one (norm [0; 0]) = 1.
Proof.
  intros m.
  destruct (proj2 (proj2 (normalize_embeddings_safe m)) 0%nat [0; 0] eq_refl)
    as (_ & _ & Hz & _).
  destruct (Hz norm_zero_vector) as (H1 & Hrow & _).
  split; [reflexivity|]. split; [exact norm_zero_vector|].
  split; [exact Hrow | exact H1].
Defined.

End RealWitnesses.

(** * Further properties of the code *)

(** ** Cache maintenance *)

Section CacheMaintenanceFacts.
Import Float32 CacheManager CacheMaintenance.

Lemma byte_to_N_lt b : Byte.to_N b < 256.
Proof. pose proof (Byte.to_N_bounded b). lia. Qed.

Lemma byte_of_N_small n b : Byte.to_N b = N.land n 255 → byte_of_N n = b.
Proof.
  intros Hb. unfold byte_of_N. rewrite <- Hb, Byte.of_to_N. done.
Qed.

Lemma testbit_byte_high b i : 8 ≤ i → N.testbit (Byte.to_N b) i = false.
Proof.
  intros Hi. pose proof (byte_to_N_lt b).
  rewrite <- (N.mod_small (Byte.to_N b) (2 ^ 8)) by done.
  by apply N.mod_pow2_bits_high.
Qed.

Lemma testbit_shifted_byte b k i :
  N.testbit (N.shiftl (Byte.to_N b) k) i
  = N.testbit (Byte.to_N b) (i - k) && (k <=? i) && (i <? k + 8).
Proof.
  destruct (N.leb_spec k i).
  - rewrite N.shiftl_spec_high' by done.
    destruct (N.ltb_spec i (k + 8)).
    + by rewrite !andb_true_r.
    + rewrite testbit_byte_high by lia. done.
  - rewrite N.shiftl_spec_low by done. by rewrite andb_false_r.
Qed.

Lemma word_frombytes_bit b0 b1 b2 b3 i :
  N.testbit (word_frombytes b0 b1 b2 b3) i
  = if i <? 8 then N.testbit (Byte.to_N b0) i
    else if i <? 16 then N.testbit (Byte.to_N b1) (i - 8)
    else if i <? 24 then N.testbit (Byte.to_N b2) (i - 16)
    else if i <? 32 then N.testbit (Byte.to_N b3) (i - 24)
    else false.
Proof.
  unfold word_frombytes.
  rewrite <- (N.shiftl_0_r (Byte.to_N b0)).
  rewrite !N.lor_spec, !testbit_shifted_byte.
  rewrite N.sub_0_r.
  destruct (N.ltb_spec i 8), (N.ltb_spec i 16), (N.ltb_spec i 24),
    (N.ltb_spec i 32), (N.ltb_spec i (0 + 8)), (N.ltb_spec i (8 + 8)),
    (N.ltb_spec i (16 + 8)), (N.ltb_spec i (24 + 8)),
    (N.leb_spec 0 i), (N.leb_spec 8 i), (N.leb_spec 16 i),
    (N.leb_spec 24 i); try lia;
    rewrite ?andb_true_r, ?andb_false_r, ?orb_false_r, ?orb_false_l; done.
Qed.

Lemma word_frombytes_float32 b0 b1 b2 b3 :
  is_float32 (word_frombytes b0 b1 b2 b3).
Proof.
  unfold is_float32.
  destruct (N.eq_dec (word_frombytes b0 b1 b2 b3) 0) as [->|Hne]; [done|].
  apply N.log2_lt_pow2; [lia|].
  destruct (N.lt_ge_cases (N.log2 (word_frombytes b0 b1 b2 b3)) 32)
    as [|Hge]; [done|].
  pose proof (N.bit_log2 _ Hne) as Hbit.
  rewrite word_frombytes_bit in Hbit.
  destruct (N.ltb_spec (N.log2 (word_frombytes b0 b1 b2 b3)) 8),
    (N.ltb_spec (N.log2 (word_frombytes b0 b1 b2 b3)) 16),
    (N.ltb_spec (N.log2 (word_frombytes b0 b1 b2 b3)) 24),
    (N.ltb_spec (N.log2 (word_frombytes b0 b1 b2 b3)) 32);
    done || lia.
Qed.

Lemma word_tobytes_frombytes b0 b1 b2 b3 :
  word_tobytes (word_frombytes b0 b1 b2 b3) = [b0; b1; b2; b3].
Proof.
  unfold word_tobytes.
  assert (∀ k b,
    (∀ j, j < 8 → N.testbit (word_frombytes b0 b1 b2 b3) (j + k)
                  = N.testbit (Byte.to_N b) j) →
    byte_of_N (N.shiftr (word_frombytes b0 b1 b2 b3) k) = b) as Hbyte.
  { intros k b Hbits. apply byte_of_N_small. apply N.bits_inj. intros j.
    rewrite N.land_spec, N.shiftr_spec', testbit_255.
    destruct (N.ltb_spec j 8).
    - rewrite andb_true_r. by rewrite Hbits.
    - rewrite andb_false_r. by apply testbit_byte_high. }
  rewrite <- (N.shiftr_0_r (word_frombytes b0 b1 b2 b3)) at 1.
  rewrite (Hbyte 0 b0), (Hbyte 8 b1), (Hbyte 16 b2), (Hbyte 24 b3); [done|..];
    intros j Hj; rewrite word_frombytes_bit;
    repeat (match goal with
            | |- context [?a <? ?b] => destruct (N.ltb_spec a b); try lia
            end);
    f_equal; lia.
Qed.

(** X5. What [np.frombuffer] decodes are [float32] patterns, and
    [tobytes] writes them back as the bytes they were read from. *)
Theorem frombuffer_then_tobytes (bs : list byte) (v : list N) :
  frombuffer bs = OK v →
  tobytes v = bs ∧ Forall is_float32 v
  ∧ length bs = (4 * length v)%nat.
Proof.
  intros Hv. split_and!; [| |by apply frombuffer_length].
  - revert v Hv.
    induction bs as [|a|a b|a b c|a b c d l IH] using list_ind4;
      intros v; simpl; try discriminate.
    + by intros [= <-].
    + destruct (frombuffer l) as [v'|]; simpl; [|discriminate].
      intros [= <-].
      change (tobytes (word_frombytes a b c d :: v'))
        with (word_tobytes (word_frombytes a b c d) ++ tobytes v').
      by rewrite word_tobytes_frombytes, (IH v').
  - revert v Hv.
    induction bs as [|a|a b|a b c|a b c d l IH] using list_ind4;
      intros v; simpl; try discriminate.
    + intros [= <-]. constructor.
    + destruct (frombuffer l) as [v'|]; simpl; [|discriminate].
      intros [= <-]. constructor;
        [apply word_frombytes_float32 | by apply IH].
Qed.

End CacheMaintenanceFacts.


Section CacheOperations.
Import Float32 CacheManager CacheMaintenance.

(** X1. After [delete_cache_entry] the document is a miss under every
    text and dimension, the other documents are looked up as before, and
    the number of rows drops by one exactly when the row existed. *)
Theorem delete_cache_entry_spec (db : cache_db) (doc_id : string) :
  (∀ text dim,
      check_cache (delete_cache_entry db doc_id) doc_id text dim = OK None)
  ∧ (∀ other text dim, other ≠ doc_id →
       check_cache (delete_cache_entry db doc_id) other text dim
       = check_cache db other text dim)
  ∧ total_cached_documents (delete_cache_entry db doc_id)
    = match db !! doc_id with
      | Some _ => pred (total_cached_documents db)
      | None => total_cached_documents db
      end
  ∧ (cache_wf db → cache_wf (delete_cache_entry db doc_id)).
Proof.
  split_and!.
  - intros text dim. apply check_cache_absent.
    unfold delete_cache_entry. apply lookup_delete_eq.
  - intros other text dim Hne. apply check_cache_ext.
    unfold delete_cache_entry. by apply lookup_delete_ne.
  - unfold total_cached_documents, delete_cache_entry.
    rewrite map_size_delete. by destruct (db !! doc_id).
  - apply cache_wf_delete.
Qed.

(** X2. [save_embedding] is an upsert: the number of rows grows by one
    for a new [doc_id] and stays the same for a known one; the row of any
    other document is untouched; the listing of the cache has one entry
    per row, and the saved document is listed with the digest of its text
    and the time of the write. *)
Theorem save_embedding_upsert (db : cache_db) (doc_id text : string)
    (v : list N) (ts : string) :
  total_cached_documents (save_embedding db doc_id text v ts)
  = match db !! doc_id with
    | Some _ => total_cached_documents db
    | None => S (total_cached_documents db)
    end
  ∧ (∀ other, other ≠ doc_id →
       save_embedding db doc_id text v ts !! other = db !! other)
  ∧ size (get_all_cached_embeddings (save_embedding db doc_id text v ts))
    = total_cached_documents (save_embedding db doc_id text v ts)
  ∧ get_all_cached_embeddings (save_embedding db doc_id text v ts) !! doc_id
    = Some (CacheInfo (compute_hash text) ts).
Proof.
  split_and!.
  - unfold total_cached_documents, save_embedding.
    rewrite map_size_insert. by destruct (db !! doc_id).
  - intros other Hne. unfold save_embedding. by apply lookup_insert_ne.
  - unfold get_all_cached_embeddings, total_cached_documents.
    apply map_size_fmap.
  - unfold get_all_cached_embeddings, save_embedding.
    by rewrite lookup_fmap, lookup_insert_eq.
Qed.

(** X3. Writes compose as last-write-wins: a second save under the same
    [doc_id] replaces the first altogether, so the second vector is read
    back under the second text; saves under different [doc_id]s can be
    done in either order. *)
Theorem save_embedding_last_write_wins (db : cache_db)
    (id1 id2 text1 text2 : string) (v1 v2 : list N) (ts1 ts2 : string) :
  save_embedding (save_embedding db id1 text1 v1 ts1) id1 text2 v2 ts2
  = save_embedding db id1 text2 v2 ts2
  ∧ (Forall is_float32 v2 →
     check_cache
       (save_embedding (save_embedding db id1 text1 v1 ts1) id1 text2 v2 ts2)
       id1 text2 (Z.of_nat (length v2)) = OK (Some v2))
  ∧ (id1 ≠ id2 →
     save_embedding (save_embedding db id1 text1 v1 ts1) id2 text2 v2 ts2
     = save_embedding (save_embedding db id2 text2 v2 ts2) id1 text1 v1 ts1).
Proof.
  split_and!.
  - unfold save_embedding. apply insert_insert_eq.
  - intros Hv. by apply check_cache_after_save.
  - intros Hne. unfold save_embedding. by apply insert_insert_ne.
Qed.

Lemma mapM_Forall2 {A B} (f : A → result B) l bs :
  SearchEngine.mapM f l = OK bs ↔ Forall2 (λ a b, f a = OK b) l bs.
Proof.
  revert bs. induction l as [|a l IH]; intros bs; simpl.
  - split; [intros [= <-]; constructor | by inversion 1].
  - split.
    + destruct (f a) as [b|] eqn:Hb; simpl; [|done].
      destruct (SearchEngine.mapM f l) as [bs'|] eqn:Hbs; simpl; [|done].
      intros [= <-]. constructor; [done | by apply IH].
    + inversion 1 as [|?? b bs' Hb Hbs]; subst.
      rewrite Hb. simpl. apply IH in Hbs. rewrite Hbs. done.
Qed.

Lemma load_row_ok id row id' v h :
  load_row (id, row) = OK (id', (v, h))
  ↔ id' = id ∧ frombuffer (embedding row) = OK v ∧ hash row = h.
Proof.
  unfold load_row. simpl.
  destruct (frombuffer (embedding row)) as [v'|x]; simpl.
  - split; [by intros [= <- <- <-] | by intros (-> & [= ->] & ->)].
  - split; [done | by intros (_ & [=] & _)].
Qed.

(** X4. [load_cache] succeeds exactly on a cache whose BLOBs are whole
    arrays of floats; the dictionary it returns has, for each row, the
    decoded vector and the stored digest, and nothing else; an entry it
    holds is what [check_cache] serves for a text of that digest. *)
Theorem load_cache_spec (db : cache_db) :
  ((∃ m, load_cache db = OK m) ↔ cache_wf db)
  ∧ ∀ m, load_cache db = OK m →
      (∀ id v h,
          m !! id = Some (v, h) ↔
          ∃ row, db !! id = Some row
                 ∧ frombuffer (embedding row) = OK v ∧ hash row = h)
      ∧ (∀ id v text,
            m !! id = Some (v, compute_hash text) →
            check_cache db id text (Z.of_nat (length v)) = OK (Some v)).
Proof.
  assert (∀ m, load_cache db = OK m →
            ∀ id v h,
              m !! id = Some (v, h) ↔
              ∃ row, db !! id = Some row
                     ∧ frombuffer (embedding row) = OK v ∧ hash row = h)
    as Hlookup.
  { intros m Hm id v h. unfold load_cache in Hm.
    destruct (SearchEngine.mapM load_row (map_to_list db)) as [rows|] eqn:Hrows;
      simpl in Hm; [|done].
    injection Hm as <-. apply mapM_Forall2 in Hrows.
    assert (rows.*1 = (map_to_list db).*1) as Hfst.
    { clear -Hrows. induction Hrows as [|[i row] [i' [v' h']] l bs Hb _ IH];
        [done|]. apply load_row_ok in Hb as (-> & _).
      rewrite !fmap_cons. simpl. f_equal. exact IH. }
    rewrite <- elem_of_list_to_map
      by (rewrite Hfst; apply NoDup_fst_map_to_list).
    split.
    - intros Hin. apply list_elem_of_lookup in Hin as [k Hk].
      destruct (Forall2_lookup_r _ _ _ _ _ Hrows Hk) as ([i row] & Hi & Hb).
      apply load_row_ok in Hb as (-> & Hv & Hh).
      exists row. split_and!; try done.
      apply elem_of_map_to_list. apply list_elem_of_lookup. eauto.
    - intros (row & Hrow & Hv & Hh).
      apply elem_of_map_to_list, list_elem_of_lookup in Hrow as [k Hk].
      destruct (Forall2_lookup_l _ _ _ _ _ Hrows Hk)
        as ([i' [v' h']] & Hi & Hb).
      apply load_row_ok in Hb as (-> & Hv' & Hh').
      rewrite Hv in Hv'. injection Hv' as <-. subst h'.
      rewrite <- Hh. apply list_elem_of_lookup. eauto. }
  split.
  - split.
    + intros [m Hm] id row Hrow.
      apply frombuffer_ok_iff. unfold load_cache in Hm.
      destruct (SearchEngine.mapM load_row (map_to_list db)) as [rows|] eqn:Hrows;
        simpl in Hm; [|done].
      apply mapM_Forall2 in Hrows.
      apply elem_of_map_to_list, list_elem_of_lookup in Hrow as [k Hk].
      destruct (Forall2_lookup_l _ _ _ _ _ Hrows Hk)
        as ([i' [v' h']] & _ & Hb).
      apply load_row_ok in Hb as (_ & Hv & _). eauto.
    + intros Hwf. unfold load_cache.
      destruct (mapM_ok load_row (map_to_list db)) as (rows & -> & _);
        [|simpl; eauto].
      apply Forall_forall. intros [id row] Hin.
      apply elem_of_map_to_list in Hin.
      destruct (proj2 (frombuffer_ok_iff (embedding row))) as [v Hv];
        [by eapply Hwf|].
      exists (id, (v, hash row)). by apply load_row_ok.
  - intros m Hm. split; [by apply Hlookup|].
    intros id v text Hin.
    apply (Hlookup m Hm) in Hin as (row & Hrow & Hv & Hh).
    rewrite (check_cache_fresh _ _ _ _ row v) by done.
    by rewrite decide_False by (intros Hne; by apply Hne).
Qed.

End CacheOperations.

(** ** The digest *)

Section DigestFacts.
Import CacheManager HexDigest.

Lemma string_length_app (s1 s2 : string) :
  String.length (s1 +:+ s2) = (String.length s1 + String.length s2)%nat.
Proof. induction s1 as [|c s1 IH]; simpl; [done | by rewrite IH]. Qed.

Lemma list_ascii_of_string_app (s1 s2 : string) :
  list_ascii_of_string (s1 +:+ s2)
  = list_ascii_of_string s1 ++ list_ascii_of_string s2.
Proof. induction s1 as [|c s1 IH]; simpl; [done | by rewrite IH]. Qed.

Lemma hex_digit_is_hex d : d < 16 → is_hex_digit (Sha256.hex_digit d) = true.
Proof.
  intros Hd. unfold Sha256.hex_digit.
  assert (d ∈ [0; 1; 2; 3; 4; 5; 6; 7; 8; 9; 10; 11; 12; 13; 14; 15]) as Hin.
  { destruct d as [|p]; [set_solver|].
    do 4 (destruct p as [p|p|]; try lia; try set_solver). }
  repeat (apply elem_of_cons in Hin as [->|Hin]; [done|]).
  by apply not_elem_of_nil in Hin.
Qed.

Lemma hex_spec n x :
  String.length (Sha256.hex n x) = n
  ∧ Forall (λ c, is_hex_digit c = true)
      (list_ascii_of_string (Sha256.hex n x)).
Proof.
  revert x. induction n as [|n IH]; intros x; simpl; [by split|].
  destruct (IH (x / 16)) as [Hl Hd].
  rewrite string_length_app, list_ascii_of_string_app, Hl. simpl.
  split; [lia|]. apply Forall_app. split; [done|].
  constructor; [|done]. apply hex_digit_is_hex.
  by apply N.mod_upper_bound.
Qed.

Lemma round_length st kw : length (Sha256.round st kw) = length st.
Proof.
  unfold Sha256.round.
  destruct st as [|a [|b [|c [|d [|e [|f [|g [|h [|i st]]]]]]]]]; done.
Qed.

Lemma compress_length h block :
  length (Sha256.compress h block) = length h.
Proof.
  unfold Sha256.compress. rewrite length_zip_with.
  assert (∀ kws st, length (fold_left Sha256.round kws st) = length st)
    as Hfold.
  { induction kws as [|kw kws IH]; intros st; simpl; [done|].
    by rewrite IH, round_length. }
  rewrite Hfold. lia.
Qed.

Lemma digest_length msg : length (Sha256.digest msg) = 8%nat.
Proof.
  unfold Sha256.digest.
  assert (∀ blocks h,
            length (fold_left Sha256.compress blocks h) = length h) as Hfold.
  { induction blocks as [|b blocks IH]; intros h; simpl; [done|].
    by rewrite IH, compress_length. }
  by rewrite Hfold.
Qed.

(** X6. For every text, [compute_hash] returns 64 characters, each a
    lowercase hexadecimal digit: the form of the column [hash]. *)
Theorem compute_hash_form (text : string) :
  String.length (compute_hash text) = 64%nat
  ∧ Forall (λ c, is_hex_digit c = true)
      (list_ascii_of_string (compute_hash text)).
Proof.
  unfold compute_hash, Sha256.hexdigest.
  pose proof (digest_length
                (map N_of_ascii (list_ascii_of_string text))) as Hlen.
  revert Hlen.
  generalize (Sha256.digest (map N_of_ascii (list_ascii_of_string text))).
  intros ws Hws.
  assert (String.length
            (fold_right (λ w acc, Sha256.hex 8 w +:+ acc) EmptyString ws)
          = (8 * length ws)%nat
          ∧ Forall (λ c, is_hex_digit c = true)
              (list_ascii_of_string
                 (fold_right (λ w acc, Sha256.hex 8 w +:+ acc)
                    EmptyString ws))) as [Hl Hd].
  { clear Hws. induction ws as [|w ws [IHl IHd]]; [by split|].
    cbn [fold_right]. destruct (hex_spec 8 w) as [Hl Hd].
    rewrite string_length_app, list_ascii_of_string_app, Hl, IHl.
    split; [simpl; lia|]. by apply Forall_app. }
  split; [by rewrite Hl, Hws | done].
Qed.

End DigestFacts.

(** ** Cleaning the text *)

Section CleaningFacts.
Import Utils TextCleaning.
Local Open Scope nat_scope.

Lemma find_close_suffix l rest :
  find_close l = Some rest → suffix rest l ∧ length rest < length l.
Proof.
  induction l as [|c l IH]; simpl; [done|].
  destruct (is_char 62 c).
  - intros [= <-]. split; [by apply suffix_cons_r | lia].
  - destruct (is_char 10 c); [done|]. intros Hr.
    destruct (IH Hr) as [Hs Hl]. split; [by apply suffix_cons_r | lia].
Qed.

Lemma remove_tags_sublist fuel l : sublist (remove_tags fuel l) l.
Proof.
  revert l. induction fuel as [|fuel IH]; intros l; simpl; [done|].
  destruct l as [|c l]; [done|].
  destruct (is_char 60 c).
  - destruct (find_close l) as [rest|] eqn:Hr.
    + apply sublist_cons. etrans; [apply IH|].
      apply find_close_suffix in Hr as [[k ->] _]. by apply sublist_inserts_l.
    + by apply sublist_skip.
  - by apply sublist_skip.
Qed.

Lemma remove_tags_no_tag_id fuel l : no_tag l → remove_tags fuel l = l.
Proof.
  revert l. induction fuel as [|fuel IH]; intros l; simpl; [done|].
  destruct l as [|c l]; [done|]. intros [Hc Hl].
  destruct (is_char 60 c).
  - rewrite Hc by done. by rewrite IH.
  - by rewrite IH.
Qed.

Lemma is_char_60_62 c : is_char 60 c = true → is_char 62 c = false.
Proof.
  unfold is_char, in_range. generalize (nat_of_ascii c). intros n.
  destruct (60 <=? n) eqn:?, (n <=? 60) eqn:?, (62 <=? n) eqn:?; simpl;
    try done.
  intros _. apply Nat.leb_le in Heqb, Heqb0, Heqb1. lia.
Qed.

Lemma is_char_60_10 c : is_char 60 c = true → is_char 10 c = false.
Proof.
  unfold is_char, in_range. generalize (nat_of_ascii c). intros n.
  destruct (60 <=? n) eqn:?, (n <=? 60) eqn:?, (n <=? 10) eqn:?; simpl;
    rewrite ?andb_false_r; try done.
  intros _. apply Nat.leb_le in Heqb, Heqb0, Heqb1. lia.
Qed.

(** A line without [>] stays one through the scan. *)
Lemma find_close_remove_tags fuel l :
  length l ≤ fuel → find_close l = None →
  find_close (remove_tags fuel l) = None.
Proof.
  revert l. induction fuel as [|fuel IH]; intros l Hf; simpl; [done|].
  destruct l as [|c l]; [done|]. simpl in Hf. simpl.
  destruct (is_char 62 c) eqn:H62; [done|].
  destruct (is_char 10 c) eqn:H10.
  - intros _. destruct (is_char 60 c) eqn:H60.
    + by rewrite (is_char_60_10 c H60) in H10.
    + simpl. by rewrite H62, H10.
  - intros Hl. destruct (is_char 60 c) eqn:H60.
    + rewrite Hl. simpl. rewrite H62, H10. apply IH; [lia | done].
    + simpl. rewrite H62, H10. apply IH; [lia | done].
Qed.

Lemma remove_tags_no_tag fuel l :
  length l ≤ fuel → no_tag (remove_tags fuel l).
Proof.
  revert l. induction fuel as [|fuel IH]; intros l Hf; simpl.
  { destruct l; [done | simpl in Hf; lia]. }
  destruct l as [|c l]; [done|]. simpl in Hf.
  destruct (is_char 60 c) eqn:H60.
  - destruct (find_close l) as [rest|] eqn:Hr.
    + apply IH. apply find_close_suffix in Hr as [_ Hl]. lia.
    + simpl. split; [intros _; apply find_close_remove_tags; [lia | done]|].
      apply IH. lia.
  - simpl. rewrite H60. split; [done|]. apply IH. lia.
Qed.

Lemma no_tag_without_lt l :
  Forall (λ c, is_char 60 c = false) l → no_tag l.
Proof.
  induction 1 as [|c l Hc _ IH]; simpl; [done|].
  split; [by rewrite Hc | done].
Qed.

(** X7. [remove_html_tags] only deletes characters; it returns a text
    without [<] as it is; and what it returns holds no tag any more, so
    that a second pass changes nothing. *)
Theorem remove_html_tags_spec (text : string) :
  sublist (list_ascii_of_string (remove_html_tags text))
    (list_ascii_of_string text)
  ∧ String.length (remove_html_tags text) ≤ String.length text
  ∧ (Forall (λ c, is_char 60 c = false) (list_ascii_of_string text) →
     remove_html_tags text = text)
  ∧ remove_html_tags (remove_html_tags text) = remove_html_tags text.
Proof.
  unfold remove_html_tags.
  assert (∀ s, String.length s = length (list_ascii_of_string s)) as Hlen.
  { induction s as [|c s IH]; simpl; [done | by rewrite IH]. }
  split_and!.
  - rewrite list_ascii_of_string_of_list_ascii. apply remove_tags_sublist.
  - rewrite !Hlen, list_ascii_of_string_of_list_ascii.
    apply sublist_length, remove_tags_sublist.
  - intros Hlt. rewrite remove_tags_no_tag_id by (by apply no_tag_without_lt).
    apply string_of_list_ascii_of_string.
  - rewrite list_ascii_of_string_of_list_ascii.
    by rewrite (remove_tags_no_tag_id _ (remove_tags _ _))
      by (by apply remove_tags_no_tag).
Qed.

End CleaningFacts.

Section CleanTextFacts.
Import Utils TextCleaning.
Local Open Scope nat_scope.

Lemma lower_ascii_not_upper c : is_upper (lower_ascii c) = false.
Proof.
  unfold lower_ascii. destruct (is_upper c) eqn:Hu; [|done].
  unfold is_upper, in_range in *.
  apply andb_true_iff in Hu as [H1 H2].
  apply Nat.leb_le in H1, H2.
  rewrite nat_ascii_embedding by lia.
  apply andb_false_iff. right. apply Nat.leb_gt. lia.
Qed.

Lemma lower_chars_not_upper text :
  Forall (λ c, is_upper c = false) (list_ascii_of_string (lower text)).
Proof.
  unfold lower. rewrite list_ascii_of_string_of_list_ascii.
  apply Forall_fmap, Forall_forall. intros c _. apply lower_ascii_not_upper.
Qed.

Lemma space_not_upper : is_upper " " = false.
Proof. done. Qed.

Lemma collapse_whitespace_Forall (P : ascii → Prop) in_run l :
  P " "%char → Forall P l → Forall P (collapse_whitespace in_run l).
Proof.
  intros Hsp Hl. revert in_run.
  induction Hl as [|c l Hc _ IH]; intros in_run; simpl; [done|].
  destruct (is_space c); [destruct in_run|]; auto.
Qed.

Lemma collapse_whitespace_head in_run l c :
  head (collapse_whitespace in_run l) = Some c →
  is_space c = true → in_run = false.
Proof.
  revert in_run. induction l as [|a l IH]; intros in_run; simpl; [done|].
  destruct (is_space a) eqn:Ha.
  - destruct in_run; [|done]. intros Hc Hs. by apply (IH true).
  - simpl. intros [= <-] Hs. congruence.
Qed.

Lemma collapse_whitespace_single_spaced in_run l :
  single_spaced (collapse_whitespace in_run l).
Proof.
  revert in_run. induction l as [|a l IH]; intros in_run; simpl; [done|].
  destruct (is_space a) eqn:Ha.
  - destruct in_run; [apply IH|]. simpl. split; [|apply IH].
    intros _. split; [done|]. intros c' Hc'.
    destruct (is_space c') eqn:Hs; [|done].
    by apply (collapse_whitespace_head true l c').
  - simpl. split; [|apply IH]. intros Hs. congruence.
Qed.

Lemma single_spaced_suffix l1 l2 :
  suffix l1 l2 → single_spaced l2 → single_spaced l1.
Proof.
  intros [k ->]. induction k as [|c k IH]; simpl; [done|].
  intros [_ Hk]. by apply IH.
Qed.

Lemma single_spaced_prefix l1 l2 :
  prefix l1 l2 → single_spaced l2 → single_spaced l1.
Proof.
  intros [k ->]. induction l1 as [|c l1 IH]; simpl; [done|].
  intros [Hc Hl]. split; [|by apply IH].
  intros Hs. destruct (Hc Hs) as [-> Hnext]. split; [done|].
  intros c' Hc'. apply Hnext. by destruct l1.
Qed.

Lemma lstrip_suffix l : suffix (lstrip l) l.
Proof.
  induction l as [|c l IH]; simpl; [done|].
  destruct (is_space c); [by apply suffix_cons_r | done].
Qed.

Lemma lstrip_head l c : head (lstrip l) = Some c → is_space c = false.
Proof.
  induction l as [|a l IH]; simpl; [done|].
  destruct (is_space a) eqn:Ha; [done|]. simpl. by intros [= <-].
Qed.

Lemma strip_prefix_of_lstrip l : prefix (strip l) (lstrip l).
Proof.
  unfold strip. destruct (lstrip_suffix (rev (lstrip l))) as [k Hk].
  exists (rev k). apply (f_equal (@rev _)) in Hk.
  by rewrite rev_involutive, rev_app_distr in Hk.
Qed.

Lemma last_rev {A} (l : list A) : last (rev l) = head l.
Proof. destruct l as [|a l]; [done|]. simpl. apply last_snoc. Qed.

Lemma strip_last l c : last (strip l) = Some c → is_space c = false.
Proof.
  unfold strip. rewrite last_rev. apply lstrip_head.
Qed.

Lemma strip_head l c : head (strip l) = Some c → is_space c = false.
Proof.
  destruct (strip_prefix_of_lstrip l) as [k Hk]. intros Hc.
  apply (lstrip_head l). rewrite Hk. by destruct (strip l).
Qed.

Lemma strip_sublist l : sublist (strip l) l.
Proof.
  destruct (strip_prefix_of_lstrip l) as [k1 Hk1].
  destruct (lstrip_suffix l) as [k2 Hk2].
  rewrite Hk2 at 2. rewrite Hk1.
  apply sublist_inserts_l, sublist_inserts_r. done.
Qed.

Lemma single_spaced_lookup l i c1 c2 :
  single_spaced l → l !! i = Some c1 → l !! S i = Some c2 →
  is_space c1 = true → is_space c2 = false.
Proof.
  revert i. induction l as [|c l IH]; intros i; simpl; [done|].
  intros [Hc Hl]. destruct i as [|i]; simpl.
  - intros [= <-] Hc2 Hs. destruct (Hc Hs) as [_ Hnext].
    apply Hnext. by destruct l.
  - by apply IH.
Qed.

Lemma single_spaced_spaces l :
  single_spaced l → Forall (λ c, is_space c = true → c = " "%char) l.
Proof.
  induction l as [|c l IH]; simpl; [done|].
  intros [Hc Hl]. constructor; [|by apply IH].
  intros Hs. by destruct (Hc Hs).
Qed.

(** X8. On ASCII text, what [clean_text] returns has no uppercase
    letter; its only whitespace is the space, never two in a row, and none
    at either end; the empty text is returned as it is. *)
Theorem clean_text_spec (text : string) :
  isascii text = true →
  let out := list_ascii_of_string (clean_text text) in
  Forall (λ c, is_upper c = false) out
  ∧ Forall (λ c, is_space c = true → c = " "%char) out
  ∧ (∀ i c1 c2, out !! i = Some c1 → out !! S i = Some c2 →
       is_space c1 = true → is_space c2 = false)
  ∧ (∀ c, head out = Some c → is_space c = false)
  ∧ (∀ c, last out = Some c → is_space c = false)
  ∧ clean_text "" = ""%string.
Proof.
  intros _ out. subst out. unfold clean_text.
  case_decide as Hempty; [subst; by split_and!|].
  rewrite list_ascii_of_string_of_list_ascii.
  set (l := collapse_whitespace false _).
  assert (single_spaced (strip l)) as Hss.
  { eapply single_spaced_prefix; [apply strip_prefix_of_lstrip|].
    eapply single_spaced_suffix; [apply lstrip_suffix|].
    apply collapse_whitespace_single_spaced. }
  split_and!.
  - apply Forall_forall. intros c Hc.
    pose proof (elem_of_sublist _ _ _ Hc (strip_sublist l)) as Hl.
    assert (Forall (λ c, is_upper c = false) l) as Hall.
    { apply collapse_whitespace_Forall; [done|].
      unfold remove_html_tags.
      rewrite list_ascii_of_string_of_list_ascii.
      apply Forall_forall. intros a Ha.
      pose proof (elem_of_sublist _ _ _ Ha (remove_tags_sublist _ _)) as Ha'.
      pose proof (lower_chars_not_upper text) as Hlow.
      rewrite Forall_forall in Hlow. by apply Hlow. }
    rewrite Forall_forall in Hall. by apply Hall.
  - by apply single_spaced_spaces.
  - intros i c1 c2. by apply single_spaced_lookup.
  - apply strip_head.
  - apply strip_last.
  - done.
Qed.

End CleanTextFacts.

(** ** Keywords and previews *)

Section KeywordFacts.
Import Utils.
Local Open Scope nat_scope.

Lemma string_length_chars s :
  String.length s = length (list_ascii_of_string s).
Proof. induction s as [|c s IH]; simpl; [done | by rewrite IH]. Qed.

Lemma lower_ascii_idemp c : lower_ascii (lower_ascii c) = lower_ascii c.
Proof.
  unfold lower_ascii at 1. by rewrite lower_ascii_not_upper.
Qed.

Lemma lower_idemp text : lower (lower text) = lower text.
Proof.
  unfold lower. rewrite list_ascii_of_string_of_list_ascii. f_equal.
  rewrite <- list_fmap_compose. apply list_fmap_ext.
  intros _ c _. apply lower_ascii_idemp.
Qed.

Lemma len_le_length text : len text ≤ String.length text.
Proof.
  unfold len. rewrite string_length_chars. apply length_filter.
Qed.

(** On ASCII text a character is a byte. *)
Lemma len_ascii chars :
  Forall (λ c, is_continuation c = false) chars →
  len (string_of_list_ascii chars) = length chars.
Proof.
  intros Hc. unfold len. rewrite list_ascii_of_string_of_list_ascii.
  f_equal. induction Hc as [|c l Hc _ IH]; [done|].
  rewrite filter_cons_True by done. by rewrite IH.
Qed.

Lemma lower_alnum_not_continuation c :
  is_lower_alnum c = true → is_continuation c = false.
Proof.
  unfold is_lower_alnum, is_continuation, in_range.
  destruct (nat_of_ascii c) as [|n]; [done|].
  intros H. apply andb_false_iff.
  apply orb_true_iff in H as [H|H]; apply andb_true_iff in H as [_ H];
    apply Nat.leb_le in H; left; apply Nat.leb_gt; lia.
Qed.

(** X9. On ASCII text, every keyword [extract_keywords] returns has at
    least [min_length] characters, all of them lowercase letters or
    digits; and the keywords do not depend on the case of the text. *)
Theorem extract_keywords_spec (text : string) (min_length : nat) :
  isascii text = true →
  Forall (λ kw,
      min_length ≤ len kw
      ∧ Forall (λ c, is_lower_alnum c = true) (list_ascii_of_string kw))
    (extract_keywords_min text min_length)
  ∧ extract_keywords_min (lower text) min_length
    = extract_keywords_min text min_length.
Proof.
  intros _. split.
  - unfold extract_keywords_min, findall_words.
    apply Forall_forall. intros kw Hkw.
    apply list_elem_of_filter in Hkw as [Hlen Hkw].
    apply list_elem_of_fmap in Hkw as (w & -> & Hw).
    apply list_elem_of_filter in Hw as [Hw _].
    assert (Forall (λ c, is_lower_alnum c = true) w) as Hall.
    { rewrite forallb_forall in Hw. apply Forall_forall.
      intros c Hc. apply Hw. by apply list_elem_of_In. }
    rewrite list_ascii_of_string_of_list_ascii. split; [|done].
    rewrite len_ascii.
    + by rewrite string_length_chars,
        list_ascii_of_string_of_list_ascii in Hlen.
    + eapply Forall_impl; [exact Hall|].
      intros c. apply lower_alnum_not_continuation.
  - unfold extract_keywords_min. by rewrite lower_idemp.
Qed.

Lemma take_chars_prefix n l : take_chars n l `prefix_of` l.
Proof.
  revert n. induction l as [|c l IH]; intros n; simpl.
  - done.
  - destruct (is_continuation c).
    + apply prefix_cons, IH.
    + destruct n as [|n]; [apply prefix_nil | apply prefix_cons, IH].
Qed.

Lemma take_chars_count n l :
  length (filter (λ c, is_continuation c = false) (take_chars n l))
  = n `min` length (filter (λ c, is_continuation c = false) l).
Proof.
  revert n. induction l as [|c l IH]; intros n; simpl.
  - by rewrite Nat.min_0_r.
  - destruct (is_continuation c) eqn:Hc.
    + rewrite !filter_cons_False by (by rewrite Hc). apply IH.
    + rewrite (filter_cons_True _ c l) by done.
      destruct n as [|n]; [done|].
      rewrite filter_cons_True by done. simpl. by rewrite IH.
Qed.

Lemma len_app s1 s2 : len (s1 +:+ s2) = len s1 + len s2.
Proof.
  unfold len. by rewrite list_ascii_of_string_app, filter_app, length_app.
Qed.

Lemma len_slice_to_chars text n : len (slice_to_chars text n) = n `min` len text.
Proof.
  unfold len, slice_to_chars. rewrite list_ascii_of_string_of_list_ascii.
  apply take_chars_count.
Qed.

(** X10. A preview is the text itself when it has at most [max_length]
    characters, and otherwise its first [max_length] characters, a prefix
    of the text, followed by three dots: never more than
    [max_length + 3] characters.  Characters are code points. *)
Theorem get_text_preview_spec (text : string) (max_length : nat) :
  len (get_text_preview text max_length) ≤ max_length + 3
  ∧ (len text ≤ max_length → get_text_preview text max_length = text)
  ∧ (max_length < len text →
     get_text_preview text max_length
     = (slice_to_chars text max_length +:+ "...")%string
     ∧ len (slice_to_chars text max_length) = max_length
     ∧ list_ascii_of_string (slice_to_chars text max_length)
       `prefix_of` list_ascii_of_string text
     ∧ len (get_text_preview text max_length) = max_length + 3).
Proof.
  unfold get_text_preview. split_and!.
  - case_decide; [lia|]. rewrite len_app, len_slice_to_chars.
    change (len "...") with 3. lia.
  - intros Hle. by rewrite decide_True.
  - intros Hlt. rewrite decide_False by lia. split_and!.
    + done.
    + rewrite len_slice_to_chars. lia.
    + unfold slice_to_chars. rewrite list_ascii_of_string_of_list_ascii.
      apply take_chars_prefix.
    + rewrite len_app, len_slice_to_chars. change (len "...") with 3. lia.
Qed.

End KeywordFacts.

(** ** The ranks of the brute-force scan *)

Section TopKFacts.
Import Embedder VectorIndex.
Context `{ArgSort}.
Local Open Scope R_scope.

Lemma reverse_argsort_strongly_sorted scores :
  StronglySorted (flip Rle)
    (map (score_at scores) (reverse (argsort scores))).
Proof.
  apply Sorted_StronglySorted; [|apply reverse_argsort_sorted].
  intros x y z Hxy Hyz. unfold flip in *. lra.
Qed.

Lemma slice_to_take_drop {A} k (l : list A) :
  ∃ n, slice_to k l = take n l ∧ l = slice_to k l ++ drop n l.
Proof.
  destruct (slice_to_prefix k l) as [n Hn]. exists n.
  split; [done|]. by rewrite Hn, take_drop.
Qed.

(** X11. The brute-force scan returns distinct, valid indices, each with
    its own score, and they are the best ones: no stored vector that is
    left out scores more than one that is returned. *)
Theorem search_cosine_top_k (m : list (list R)) (v : list R) (k : Z) :
  Forall (λ row, length row = length v) m →
  ∃ scores indices,
    _search_cosine m v k = OK (scores, indices)
    ∧ NoDup indices
    ∧ Forall (λ i, 0 ≤ i < Z.of_nat (length m))%Z indices
    ∧ length scores = length indices
    ∧ (∀ r i row, indices !! r = Some (Z.of_nat i) → m !! i = Some row →
         scores !! r = Some (dot row v))
    ∧ (∀ j row x, m !! j = Some row → Z.of_nat j ∉ indices →
         x ∈ scores → dot row v <= x).
Proof.
  intros Hm. destruct (search_cosine_ok m v k Hm) as (Hc & _).
  set (all := map (λ row, dot row v) m) in *.
  set (p := reverse (argsort all)) in *.
  assert (p ≡ₚ seq 0 (length m)) as Hp.
  { unfold p. rewrite reverse_argsort_perm. unfold all.
    by rewrite length_map. }
  assert (∀ i row, m !! i = Some row → score_at all i = dot row v) as Hscore.
  { intros i row Hi. unfold score_at, all.
    apply nth_lookup_Some. by rewrite list_lookup_fmap, Hi. }
  destruct (slice_to_take_drop k p) as (n & Htop & Hsplit).
  eexists _, _. split; [exact Hc|]. split_and!.
  - apply (NoDup_fmap_2 _). rewrite Htop.
    apply (sublist_NoDup _ p); [|apply sublist_take].
    rewrite Hp. apply NoDup_seq.
  - apply Forall_fmap, Forall_forall. intros i Hi. simpl.
    rewrite Htop in Hi. apply elem_of_take in Hi as (? & Hi & _).
    apply list_elem_of_lookup_2 in Hi. rewrite Hp in Hi.
    apply elem_of_seq in Hi. lia.
  - by rewrite !length_map.
  - intros r i row Hr Hi.
    rewrite list_lookup_fmap in Hr. rewrite list_lookup_fmap.
    destruct (slice_to k p !! r) as [i'|]; simpl in *; [|done].
    injection Hr as Hr. apply Nat2Z.inj in Hr. subst i'.
    f_equal. by apply Hscore.
  - intros j row x Hj Hout Hx.
    apply list_elem_of_fmap in Hx as (i & -> & Hi).
    assert (j ∈ drop n p) as Hrest.
    { assert (j ∈ p) as Hjp.
      { rewrite Hp. apply elem_of_seq. apply lookup_lt_Some in Hj. lia. }
      rewrite Hsplit in Hjp. apply elem_of_app in Hjp as [Hjtop|]; [|done].
      destruct Hout. apply list_elem_of_fmap. eauto. }
    rewrite <- (Hscore j row Hj).
    pose proof (reverse_argsort_strongly_sorted all) as Hss.
    fold p in Hss. rewrite Hsplit in Hss.
    change (map (score_at all) (slice_to k p ++ drop n p))
      with (score_at all <$> (slice_to k p ++ drop n p)) in Hss.
    rewrite fmap_app in Hss.
    apply (StronglySorted_app_1_elem_of (flip Rle) _ _
             (score_at all i) (score_at all j)) in Hss;
      [done | by apply list_elem_of_fmap_2 | by apply list_elem_of_fmap_2].
Qed.

End TopKFacts.

(** ** Batches, the index of the documents, pages *)

Section BatchFacts.
Import Float32 Embedder EmbedderBatch.
Context `{SentenceTransformer}.

(** X13. [embed_documents] raises on the empty list only; on any other
    list, whatever the texts, it returns one [float32] vector of the
    model's dimension per text. *)
Theorem embed_documents_spec (texts : list string) :
  (texts = [] →
   embed_documents texts
   = Err (ValueError "Input must be a non-empty list of strings"))
  ∧ (texts ≠ [] →
     ∃ rows, embed_documents texts = OK rows
             ∧ length rows = length texts
             ∧ Forall (λ v, length v = get_sentence_embedding_dimension
                            ∧ Forall is_float32 v) rows).
Proof.
  unfold embed_documents. split.
  - intros ->. done.
  - intros Hne. rewrite decide_False by done. eexists. split; [done|].
    split; [by rewrite !length_map|].
    apply Forall_fmap, Forall_forall. intros t _. simpl.
    split; [apply encode_length | apply encode_float32].
Qed.

End BatchFacts.

Section DocumentIndexFacts.
Import Utils SearchEngine EngineState ApiDocuments.

Lemma doc_ids_from_spec idx docs acc id :
  (id ∉ map doc_id docs → doc_ids_from idx docs acc !! id = acc !! id)
  ∧ (id ∈ map doc_id docs →
     ∃ j doc, doc_ids_from idx docs acc !! id = Some (idx + j)%nat
              ∧ docs !! j = Some doc ∧ doc_id doc = id
              ∧ ∀ j' doc', docs !! j' = Some doc' → doc_id doc' = id →
                           (j' ≤ j)%nat).
Proof.
  revert idx acc. induction docs as [|d rest IH]; intros idx acc.
  { split; [done|]. intros Hin. by apply not_elem_of_nil in Hin. }
  simpl.
  destruct (decide (id ∈ map doc_id rest)) as [Hin|Hout].
  - assert (∃ j doc,
              doc_ids_from (S idx) rest (<[doc_id d:=idx]> acc) !! id
              = Some (idx + j)%nat
              ∧ (d :: rest) !! j = Some doc ∧ doc_id doc = id
              ∧ ∀ j' doc', (d :: rest) !! j' = Some doc' →
                           doc_id doc' = id → (j' ≤ j)%nat) as Hres.
    { destruct (proj2 (IH (S idx) (<[doc_id d:=idx]> acc)) Hin)
        as (j & doc & Hl & Hj & Hid & Hlast).
      exists (S j), doc. split_and!; try done.
      - rewrite Hl. f_equal. lia.
      - intros [|j'] doc'; simpl; [lia|]. intros Hj' Hid'.
        specialize (Hlast j' doc' Hj' Hid'). lia. }
    split; [|done]. intros Hnot. destruct Hnot. by right.
  - rewrite (proj1 (IH (S idx) (<[doc_id d:=idx]> acc)) Hout).
    split.
    + intros Hnot. apply not_elem_of_cons in Hnot as [Hne _].
      by rewrite lookup_insert_ne.
    + intros Hin. apply elem_of_cons in Hin as [->|Hin]; [|done].
      exists 0%nat, d. rewrite lookup_insert_eq, Nat.add_0_r.
      split_and!; try done.
      intros [|j'] doc'; simpl; [lia|]. intros Hj' Hid'.
      destruct Hout. rewrite <- Hid'.
      apply list_elem_of_fmap_2. by eapply list_elem_of_lookup_2.
Qed.

(** X14. After [load_documents] has found documents, whatever the engine
    held before, [get_document] answers 404 for a [doc_id] that no
    document has, and otherwise returns a document of that [doc_id]: the
    last one in the list when several share it. *)
Theorem get_document_after_load (ie : indexed_engine)
    (files : list document) (id : string) :
  files ≠ [] →
  let ie' := (load_documents_indexed ie files).1 in
  (id ∉ map doc_id files →
   get_document (Some ie') id = DocumentNotFound404)
  ∧ (id ∈ map doc_id files →
     ∃ j doc, get_document (Some ie') id = Document200 doc
              ∧ files !! j = Some doc ∧ doc_id doc = id
              ∧ ∀ j' doc', files !! j' = Some doc' → doc_id doc' = id →
                           (j' ≤ j)%nat).
Proof.
  intros Hne ie'. subst ie'. unfold load_documents_indexed.
  rewrite decide_False by (by destruct files).
  unfold get_document. simpl.
  destruct (doc_ids_from_spec 0 files ∅ id) as [Hout Hin]. split.
  - intros Hid. by rewrite (Hout Hid), lookup_empty.
  - intros Hid. destruct (Hin Hid) as (j & doc & -> & Hj & Hd & Hlast).
    exists j, doc. simpl.
    by rewrite (list_getitem_nonneg _ _ _ Hj).
Qed.

(** X15. A reload that finds no document empties the list of documents
    and keeps the old dictionary: [get_document] then raises
    [IndexError] for every [doc_id] loaded before, and still answers 404
    for the others. *)
Theorem get_document_after_empty_reload (ie : indexed_engine)
    (files : list document) (id : string) :
  files ≠ [] →
  let ie1 := (load_documents_indexed ie files).1 in
  let ie2 := (load_documents_indexed ie1 []).1 in
  documents (engine ie2) = []
  ∧ (id ∈ map doc_id files →
     get_document (Some ie2) id
     = DocumentRaised (IndexError "list index out of range"))
  ∧ (id ∉ map doc_id files →
     get_document (Some ie2) id = DocumentNotFound404).
Proof.
  intros Hne ie1 ie2. subst ie1 ie2. unfold load_documents_indexed.
  rewrite (decide_False (P := length files = 0%nat))
    by (by destruct files).
  simpl.
  unfold get_document. simpl.
  destruct (doc_ids_from_spec 0 files ∅ id) as [Hout Hin].
  split_and!; [done|..].
  - intros Hid. destruct (Hin Hid) as (j & doc & -> & _). simpl.
    unfold list_getitem. simpl. by repeat case_decide.
  - intros Hid. by rewrite (Hout Hid), lookup_empty.
Qed.

Lemma take_add_drop {A} (n m : nat) (l : list A) :
  take (n + m) l = take n l ++ take m (drop n l).
Proof.
  revert l. induction n as [|n IH]; intros [|a l]; simpl; try done.
  - by rewrite take_nil.
  - by rewrite IH.
Qed.

(** X16. A valid page request returns the documents from [offset] on, at
    most [limit] of them: their number is the smaller of [limit] and of
    what is left behind [offset]; a page followed by the next one is the
    page of both limits. *)
Theorem list_documents_pages (e : search_engine) (limit offset : Z) :
  (1 ≤ limit ≤ 1000)%Z → (0 ≤ offset)%Z →
  ∃ l, list_documents (Some e) limit offset = Listing200 l
       ∧ listing_total l = length (documents e)
       ∧ listing_returned l = length (listing_documents l)
       ∧ listing_returned l
         = Nat.min (Z.to_nat limit)
             (length (documents e) - Z.to_nat offset)
       ∧ (∀ i s, listing_documents l !! i = Some s →
            ∃ doc, documents e !! (Z.to_nat offset + i)%nat = Some doc
                   ∧ s = summarize doc)
       ∧ (∀ limit2, (1 ≤ limit2)%Z → (limit + limit2 ≤ 1000)%Z →
            ∃ l2 l12,
              list_documents (Some e) limit2 (offset + limit)
              = Listing200 l2
              ∧ list_documents (Some e) (limit + limit2) offset
                = Listing200 l12
              ∧ listing_documents l12
                = listing_documents l ++ listing_documents l2).
Proof.
  intros Hl Ho.
  assert (∀ lim off, (1 ≤ lim ≤ 1000)%Z → (0 ≤ off)%Z →
            list_documents (Some e) lim off
            = Listing200
                (Listing (length (documents e)) off lim
                   (length (map summarize
                      (take (Z.to_nat lim)
                         (drop (Z.to_nat off) (documents e)))))
                   (map summarize
                      (take (Z.to_nat lim)
                         (drop (Z.to_nat off) (documents e)))))) as Heq.
  { intros lim off Hlim Hoff. unfold list_documents.
    by rewrite (bool_decide_eq_true_2 _ Hlim),
      (bool_decide_eq_true_2 _ Hoff). }
  eexists. split; [by apply Heq|]. simpl. split_and!; try done.
  - by rewrite length_map, length_take, length_drop.
  - intros i s Hs. rewrite list_lookup_fmap in Hs.
    destruct (take _ _ !! i) as [doc|] eqn:Hdoc; [|done].
    injection Hs as <-. exists doc. split; [|done].
    apply lookup_take_Some in Hdoc as [Hdoc _].
    by rewrite lookup_drop in Hdoc.
  - intros limit2 Hl2 Hsum. eexists _, _.
    rewrite (Heq limit2 (offset + limit)%Z) by lia.
    rewrite (Heq (limit + limit2)%Z offset) by lia.
    split; [done|]. split; [done|]. simpl.
    rewrite <- map_app. f_equal.
    rewrite !Z2Nat.inj_add by lia.
    rewrite <- drop_drop.
    apply take_add_drop.
Qed.

End DocumentIndexFacts.

(** ** Generation, once more *)

Section GenerateMore.
Import Float32 CacheManager Utils Embedder SearchEngine EngineState.
Context `{SentenceTransformer}.

Lemma check_cache_hit_dim db id text dim v :
  check_cache db id text dim = OK (Some v) → Z.of_nat (length v) = dim.
Proof.
  unfold check_cache. destruct (db !! id) as [row|]; [|done].
  case_decide; [done|].
  destruct (frombuffer (embedding row)) as [v'|]; simpl; [|done].
  case_decide as Hl; [done|]. intros [= <-]. lia.
Qed.

Lemma generate_loop_shape force now idx docs db l h m db' :
  generate_loop force now idx docs [] 0 0 db = (OK (l, h, m), db') →
  length l = length docs
  ∧ Forall (λ v, length v = get_sentence_embedding_dimension) l
  ∧ (h + m = length docs)%nat.
Proof.
  revert idx db l h m db'.
  induction docs as [|doc rest IH]; intros idx db l h m db'.
  { simpl. intros [= <- <- <- _]. by split_and!. }
  rewrite generate_loop_cons.
  destruct (if force then OK None else check_cache db _ _ _)
    as [[v|]|x] eqn:Hc; [| |done].
  - destruct (generate_loop force now (S idx) rest [] 0 0 db)
      as [[[[l' h'] m']|x] db1] eqn:Hrun; [|done].
    intros [= <- <- <- _]. destruct (IH _ _ _ _ _ _ Hrun) as (Hl & Hs & Hn).
    split_and!; [simpl; lia | | simpl; lia].
    constructor; [|done]. destruct force; [done|].
    apply check_cache_hit_dim in Hc.
    unfold get_embedding_dimension in Hc. lia.
  - destruct (embed_text (content doc)) as [emb|x] eqn:He; [|done].
    destruct (generate_loop force now (S idx) rest [] 0 0 _)
      as [[[[l' h'] m']|x] db1] eqn:Hrun; [|done].
    intros [= <- <- <- _]. destruct (IH _ _ _ _ _ _ Hrun) as (Hl & Hs & Hn).
    split_and!; [simpl; lia | | simpl; lia].
    constructor; [|done]. apply embed_text_shape in He as [Hd _].
    unfold get_embedding_dimension in Hd. lia.
Qed.

(** X17. When [generate_embeddings] completes, the matrix has one row per
    document, each of the model's dimension; every document was either a
    cache hit or a miss; documents, strategy and index are as before; and
    [get_stats] reports the embeddings as generated, with that shape. *)
Theorem generate_embeddings_aligned (e e' : search_engine) (force : bool)
    (now : nat → string) :
  generate_embeddings e force now = (OK (), e') →
  ∃ l hits misses,
    generate_embeddings_list e force now
    = (OK (l, hits, misses), cache_manager e')
    ∧ (hits + misses = length (documents e))%nat
    ∧ embeddings e' = Some (np_array l)
    ∧ length (np_array l) = length (documents e')
    ∧ Forall (λ row, length row = get_sentence_embedding_dimension)
        (np_array l)
    ∧ documents e' = documents e ∧ use_faiss e' = use_faiss e
    ∧ faiss_index e' = faiss_index e
    ∧ total_documents (get_stats e') = length (documents e)
    ∧ embeddings_generated (get_stats e') = true
    ∧ embeddings_shape (get_stats e')
      = Some (length (documents e), get_sentence_embedding_dimension).
Proof.
  unfold generate_embeddings.
  destruct (generate_embeddings_list e force now)
    as [[[[l h] m]|x] db] eqn:Hrun; [|done].
  intros [= <-]. exists l, h, m. split; [done|].
  unfold generate_embeddings_list in Hrun.
  case_decide as Hn; [done|].
  apply generate_loop_shape in Hrun as (Hl & Hs & Hc).
  assert (Forall (λ row, length row = get_sentence_embedding_dimension)
            (np_array l)) as Hshape by (by apply np_array_shape).
  assert (length (np_array l) = length (documents e)) as Hlen
    by (unfold np_array; by rewrite length_map).
  split_and!; try done.
  unfold get_stats. simpl. f_equal. f_equal; [done|].
  destruct (np_array l) as [|row rows]; [simpl in Hlen; lia|].
  simpl. by inversion Hshape.
Qed.

(** The loop removes no row. *)
Lemma generate_loop_keeps force now idx docs acc h m db r db' id :
  generate_loop force now idx docs acc h m db = (r, db') →
  is_Some (db !! id) → is_Some (db' !! id).
Proof.
  revert idx acc h m db.
  induction docs as [|doc rest IH]; intros idx acc h m db; simpl.
  { by intros [= _ <-]. }
  intros Hrun Hid.
  destruct (if force then OK None else check_cache db _ _ _)
    as [[v|]|x]; [| |by injection Hrun as _ <-].
  - by eapply IH.
  - destruct (embed_text (content doc)) as [emb|x];
      [|by injection Hrun as _ <-].
    eapply IH; [exact Hrun|]. unfold save_embedding.
    destruct (decide (doc_id doc = id)) as [->|Hne].
    + by rewrite lookup_insert_eq.
    + by rewrite lookup_insert_ne.
Qed.

Lemma generate_loop_forced now idx docs db :
  Forall (λ doc, content doc ≠ ""%string) docs →
  ∃ db',
    generate_loop true now idx docs [] 0 0 db
    = (OK (map (λ doc, encode (lower (content doc))) docs, 0%nat, length docs), db')
    ∧ ∀ doc, doc ∈ docs → is_Some (db' !! doc_id doc).
Proof.
  intros Hdocs. revert idx db.
  induction Hdocs as [|doc rest Hdoc _ IH]; intros idx db.
  { exists db. split; [done|]. intros doc Hin.
    by apply not_elem_of_nil in Hin. }
  rewrite generate_loop_cons, embed_text_ok by done.
  destruct (IH (S idx)
              (save_embedding db (doc_id doc) (content doc)
                 (encode (lower (content doc))) (now idx)))
    as (db' & Hrun & Hrows).
  rewrite Hrun. exists db'. split; [done|].
  intros doc' Hin. apply elem_of_cons in Hin as [->|Hin]; [|by apply Hrows].
  eapply generate_loop_keeps; [exact Hrun|].
  unfold save_embedding. by rewrite lookup_insert_eq.
Qed.

(** X18. With [force_regenerate], whatever the cache holds, a run over
    documents with non-empty texts asks the model for every document:
    no hit, one miss per document; it leaves a row for every document and
    touches no row of another [doc_id]. *)
Theorem generate_embeddings_forced (e : search_engine) (now : nat → string) :
  documents e ≠ [] →
  Forall (λ doc, content doc ≠ ""%string) (documents e) →
  ∃ db',
    generate_embeddings_list e true now
    = (OK (map (λ doc, encode (lower (content doc))) (documents e), 0%nat, length (documents e)),
       db')
    ∧ (∀ doc, doc ∈ documents e → is_Some (db' !! doc_id doc))
    ∧ (∀ id, id ∉ map doc_id (documents e) →
         db' !! id = cache_manager e !! id).
Proof.
  intros Hne Hdocs. unfold generate_embeddings_list.
  rewrite decide_False by (by destruct (documents e)).
  destruct (generate_loop_forced now 0 (documents e) (cache_manager e)
              Hdocs) as (db' & Hrun & Hrows).
  exists db'. split_and!; try done.
  intros id Hid. by eapply generate_loop_frame.
Qed.

Lemma set_cache_same e : set_cache e (cache_manager e) = e.
Proof. by destruct e. Qed.

Lemma generate_loop_empty_text now idx pre d post db :
  Forall (λ doc, content doc ≠ ""%string) pre → content d = ""%string →
  ∃ db',
    generate_loop true now idx (pre ++ d :: post) [] 0 0 db
    = (Err (ValueError "Input text must be a non-empty string"), db')
    ∧ ∀ doc, doc ∈ pre → is_Some (db' !! doc_id doc).
Proof.
  intros Hpre Hd. revert idx db.
  induction Hpre as [|doc rest Hdoc _ IH]; intros idx db.
  { exists db. simpl. rewrite Hd. split; [done|]. intros doc Hin.
    by apply not_elem_of_nil in Hin. }
  change ((doc :: rest) ++ d :: post) with (doc :: (rest ++ d :: post)).
  rewrite generate_loop_cons, embed_text_ok by done.
  destruct (IH (S idx)
              (save_embedding db (doc_id doc) (content doc)
                 (encode (lower (content doc))) (now idx)))
    as (db' & Hrun & Hrows).
  rewrite Hrun. exists db'. split; [done|].
  intros doc' Hin. apply elem_of_cons in Hin as [->|Hin]; [|by apply Hrows].
  eapply generate_loop_keeps; [exact Hrun|].
  unfold save_embedding. by rewrite lookup_insert_eq.
Qed.

(** X19. A failed [generate_embeddings] leaves the engine's embeddings,
    documents, strategy and index as they were, and no row of the cache
    is lost; without documents the engine is unchanged altogether.  The
    rows written before the exception stay: a forced run that meets a
    document with an empty text fails with the embedder's [ValueError]
    and has cached every document in front of it. *)
Theorem generate_embeddings_failure (e : search_engine) (force : bool)
    (now : nat → string) :
  (documents e = [] →
   generate_embeddings e force now
   = (Err (ValueError "No documents loaded. Call load_documents() first."),
      e))
  ∧ (∀ x e', generate_embeddings e force now = (Err x, e') →
       embeddings e' = embeddings e ∧ documents e' = documents e
       ∧ use_faiss e' = use_faiss e ∧ faiss_index e' = faiss_index e
       ∧ ∀ id, is_Some (cache_manager e !! id) →
               is_Some (cache_manager e' !! id))
  ∧ (∀ pre d post,
       documents e = pre ++ d :: post →
       Forall (λ doc, content doc ≠ ""%string) pre →
       content d = ""%string →
       ∃ e', generate_embeddings e true now
             = (Err (ValueError "Input text must be a non-empty string"),
                e')
             ∧ ∀ doc, doc ∈ pre →
                      is_Some (cache_manager e' !! doc_id doc)).
Proof.
  split_and!.
  - intros Hdocs. unfold generate_embeddings, generate_embeddings_list.
    rewrite Hdocs. simpl. by rewrite set_cache_same.
  - intros x e'. unfold generate_embeddings.
    destruct (generate_embeddings_list e force now)
      as [[[[l h] m]|x'] db] eqn:Hrun; [done|].
    intros [= _ <-]. split_and!; try done.
    intros id Hid. simpl. unfold generate_embeddings_list in Hrun.
    case_decide; [by injection Hrun as _ <-|].
    by eapply generate_loop_keeps.
  - intros pre d post Hdocs Hpre Hd.
    unfold generate_embeddings, generate_embeddings_list.
    rewrite decide_False by (rewrite Hdocs, length_app; simpl; lia).
    destruct (generate_loop_empty_text now 0 pre d post (cache_manager e)
                Hpre Hd) as (db' & Hrun & Hrows).
    rewrite Hdocs, Hrun. eexists. split; [done|]. exact Hrows.
Qed.

End GenerateMore.

(** ** The index and the results of a search *)

Section BuildFacts.
Import Embedder VectorIndex SearchEngine.

(** X20. [build_vector_index] fails exactly when there are no
    embeddings, and otherwise keeps the documents, the cache and the
    strategy.  With the flat index the raw embeddings stay in the engine
    and building again gives the same engine.  On the brute-force path
    the embeddings are replaced by the normalized matrix, so that
    building again normalizes the normalized matrix once more. *)
Theorem build_vector_index_again (e : search_engine) :
  (embeddings e = None ↔ ∃ x, build_vector_index e = Err x)
  ∧ ∀ e1, build_vector_index e = OK e1 →
      documents e1 = documents e ∧ cache_manager e1 = cache_manager e
      ∧ use_faiss e1 = use_faiss e
      ∧ (use_faiss e = true →
         embeddings e1 = embeddings e ∧ build_vector_index e1 = OK e1)
      ∧ (use_faiss e = false →
         faiss_index e1 = faiss_index e
         ∧ ∀ m, embeddings e = Some m →
             embeddings e1 = Some (normalize_embeddings m)
             ∧ build_vector_index e1
               = OK (set_embeddings e1
                       (Some (normalize_embeddings
                                (normalize_embeddings m))))).
Proof.
  unfold build_vector_index. split.
  - destruct (embeddings e) as [m|]; split; try done; eauto.
    destruct (use_faiss e); by intros [x ?].
  - intros e1. destruct (embeddings e) as [m|] eqn:Em; [|done].
    destruct (use_faiss e) eqn:Ef; intros [= <-]; simpl.
    + rewrite Em, Ef. by split_and!.
    + rewrite Ef. split_and!; try done.
      split; [done|]. by intros m' [= <-].
Qed.

End BuildFacts.

Section ResultFacts.
Import Float32 CacheManager Utils Embedder VectorIndex SearchEngine.
Context `{SentenceTransformer} `{ArgSort} `{FlatSearch}.

(** The query vector of [search]. *)
Lemma query_embedding_row q :
  hd [] (normalize_embeddings [map to_R q]) = normalize_row (map to_R q).
Proof. by rewrite normalize_embeddings_rows. Qed.

(** The results of the brute-force path, one by one. *)
Lemma search_cosine_results e m query k :
  embeddings e = Some m → use_faiss e = false → query ≠ ""%string →
  Forall (λ row, length row = get_sentence_embedding_dimension) m →
  (length m ≤ length (documents e))%nat →
  let qe := normalize_row (map to_R (encode (lower query))) in
  let scores := map (λ row, dot row qe) m in
  let top := slice_to k (reverse (argsort scores)) in
  ∃ rs, search e query k = OK rs ∧ length rs = length top
    ∧ ∀ i res, rs !! i = Some res →
        ∃ j doc, top !! i = Some j ∧ documents e !! j = Some doc
          ∧ build_result e (extract_keywords query)
              (i, (Z.of_nat j, score_at scores j)) = OK res.
Proof.
  intros Em Ef Hq Hm Hdocs qe scores top.
  destruct (search_cosine_path e m query k Em Ef Hq Hm Hdocs)
    as (rs & Hrs & _).
  exists rs. split; [done|].
  unfold search in Hrs. rewrite Em, Ef, embed_text_ok in Hrs by done.
  simpl in Hrs. set (qe' := map _ (map to_R _)) in Hrs.
  change qe' with qe in Hrs. clear qe'.
  assert (Forall (λ row, length row = length qe) m) as Hshape.
  { eapply Forall_impl; [exact Hm|]. intros row ->.
    unfold qe. by rewrite normalize_row_length, length_map, encode_length. }
  destruct (search_cosine_ok m qe k Hshape) as (Hc & _).
  rewrite Hc in Hrs. simpl in Hrs.
  fold scores in Hrs. fold top in Hrs.
  apply mapM_Forall2 in Hrs.
  assert (length rs = length top) as Hlen.
  { apply Forall2_length in Hrs.
    rewrite length_zip, length_seq, length_zip, !length_map in Hrs. lia. }
  split; [done|]. intros i res Hi.
  destruct (lookup_lt_is_Some_2 top i) as [j Hj];
    [rewrite <- Hlen; by eapply lookup_lt_Some|].
  assert (Forall (λ i, i < length m)%nat top) as Hbound.
  { destruct (slice_to_prefix k (reverse (argsort scores))) as [n Hn].
    unfold top. rewrite Hn. apply Forall_take.
    eapply perm_seq_bound. rewrite reverse_argsort_perm.
    unfold scores. by rewrite length_map. }
  assert (j < length m)%nat as Hjm.
  { rewrite Forall_forall in Hbound. apply Hbound.
    by eapply list_elem_of_lookup_2. }
  destruct (lookup_lt_is_Some_2 (documents e) j) as [doc Hdoc]; [lia|].
  exists j, doc. split_and!; try done.
  eapply Forall2_lookup_lr in Hrs; [exact Hrs| |exact Hi].
  apply lookup_zip_with_Some. exists i, (Z.of_nat j, score_at scores j).
  split_and!; [done| |].
  - apply lookup_seq. rewrite length_map. split; [done|].
    by eapply lookup_lt_Some.
  - apply lookup_zip_with_Some. exists (Z.of_nat j), (score_at scores j).
    by rewrite !list_lookup_fmap, Hj.
Qed.

Lemma overlap_count_length q d :
  overlap_count (compute_overlap q d)
  = length (overlapping_keywords (compute_overlap q d)).
Proof.
  unfold compute_overlap. simpl.
  by rewrite (Permutation_length (sorted_perm _)).
Qed.

Lemma overlapping_keywords_in q d w :
  w ∈ overlapping_keywords (compute_overlap q d) → w ∈ q ∧ w ∈ d.
Proof.
  unfold compute_overlap. simpl. rewrite sorted_perm.
  rewrite elem_of_elements, elem_of_intersection, !elem_of_list_to_set.
  done.
Qed.

(** X21. On the brute-force path, over embeddings that match the
    documents, for a query and documents in ASCII, [search] numbers its
    results 1, 2, ...; their scores
    descend; each result is a document of the engine, with that
    document's id, file name, length and preview and the score of its
    row; the reported overlap count is the number of overlapping
    keywords, all of them keywords of the query and of the document; the
    explanation names at most five of them; and with distinct [doc_id]s
    no document is returned twice. *)
Theorem search_results_structure (e : search_engine) (m : list (list R))
    (query : string) (k : Z) :
  embeddings e = Some m → use_faiss e = false → query ≠ ""%string →
  Forall (λ row, length row = get_sentence_embedding_dimension) m →
  (length m ≤ length (documents e))%nat →
  isascii query = true →
  Forall (λ doc, isascii (content doc) = true) (documents e) →
  ∃ rs,
    search e query k = OK rs
    ∧ map rank rs = seq 1 (length rs)
    ∧ Sorted (flip Rle) (map score rs)
    ∧ Forall (λ res,
        ∃ j doc row,
          documents e !! j = Some doc ∧ m !! j = Some row
          ∧ result_doc_id res = doc_id doc
          ∧ result_filename res = filename doc
          ∧ doc_length res = cleaned_length doc
          ∧ preview res = get_text_preview (content doc) 150
          ∧ score res
            = dot row (normalize_row (map to_R (encode (lower query))))
          ∧ result_overlap_count res = length (keywords_overlap res)
          ∧ (∀ w, w ∈ keywords_overlap res →
               w ∈ extract_keywords query
               ∧ w ∈ extract_keywords (content doc))
          ∧ (length (matching_keywords (result_explanation res)) ≤ 5)%nat)
        rs
    ∧ (NoDup (map doc_id (documents e)) → NoDup (map result_doc_id rs)).
Proof.
  intros Em Ef Hq Hm Hdocs _ _.
  destruct (search_cosine_results e m query k Em Ef Hq Hm Hdocs)
    as (rs & Hrs & Hlen & Hres).
  set (qe := normalize_row (map to_R (encode (lower query)))) in *.
  set (scores := map (λ row, dot row qe) m) in *.
  set (top := slice_to k (reverse (argsort scores))) in *.
  assert (∀ i res, rs !! i = Some res →
            ∃ j doc, top !! i = Some j ∧ documents e !! j = Some doc
              ∧ res = {|
                  rank := i + 1;
                  result_doc_id := doc_id doc;
                  result_filename := filename doc;
                  score := score_at scores j;
                  preview := get_text_preview (content doc) 150;
                  doc_length := cleaned_length doc;
                  keywords_overlap :=
                    overlapping_keywords
                      (compute_overlap (extract_keywords query)
                         (extract_keywords (content doc)));
                  result_overlap_count :=
                    overlap_count
                      (compute_overlap (extract_keywords query)
                         (extract_keywords (content doc)));
                  result_overlap_ratio :=
                    overlap_ratio
                      (compute_overlap (extract_keywords query)
                         (extract_keywords (content doc)));
                  result_explanation :=
                    _generate_explanation (score_at scores j)
                      (compute_overlap (extract_keywords query)
                         (extract_keywords (content doc))) doc |})
    as Hrec.
  { intros i res Hi. destruct (Hres i res Hi) as (j & doc & Hj & Hd & Hb).
    exists j, doc. split_and!; try done.
    unfold build_result in Hb.
    rewrite (list_getitem_nonneg _ _ _ Hd) in Hb. simpl in Hb.
    by injection Hb as <-. }
  assert (p_top : ∃ n, top = take n (reverse (argsort scores)))
    by apply slice_to_prefix.
  destruct p_top as [n Htop].
  assert (NoDup top) as Hnd.
  { rewrite Htop.
    apply (sublist_NoDup _ (reverse (argsort scores)));
      [|apply sublist_take].
    rewrite reverse_argsort_perm. apply NoDup_seq. }
  exists rs. split; [done|]. split_and!.
  - apply list_eq. intros i. rewrite list_lookup_fmap.
    destruct (rs !! i) as [res|] eqn:Hi; simpl.
    + destruct (Hrec i res Hi) as (j & doc & _ & _ & ->). simpl.
      symmetry. apply lookup_seq. split; [lia|].
      by eapply lookup_lt_Some.
    + symmetry. apply lookup_seq_ge. by apply lookup_ge_None.
  - assert (map score rs = map (score_at scores) top) as ->.
    { apply list_eq. intros i. rewrite !list_lookup_fmap.
      destruct (rs !! i) as [res|] eqn:Hi; simpl.
      - destruct (Hrec i res Hi) as (j & doc & -> & _ & ->). done.
      - apply lookup_ge_None in Hi. rewrite Hlen in Hi.
        apply lookup_ge_None in Hi. by rewrite Hi. }
    rewrite Htop.
    change (map (score_at scores) (take n (reverse (argsort scores))))
      with (score_at scores <$> take n (reverse (argsort scores))).
    rewrite fmap_take. apply Sorted_take, reverse_argsort_sorted.
  - apply Forall_lookup. intros i res Hi.
    destruct (Hrec i res Hi) as (j & doc & Hj & Hd & ->).
    assert (j < length m)%nat as Hjm.
    { assert (j ∈ reverse (argsort scores)) as Hin.
      { rewrite Htop in Hj. apply lookup_take_Some in Hj as [Hj _].
        by eapply list_elem_of_lookup_2. }
      rewrite reverse_argsort_perm in Hin. apply elem_of_seq in Hin.
      unfold scores in Hin. rewrite length_map in Hin. lia. }
    destruct (lookup_lt_is_Some_2 m j Hjm) as [row Hrow].
    exists j, doc, row. simpl. split_and!; try done.
    + unfold score_at, scores. apply nth_lookup_Some.
      by rewrite list_lookup_fmap, Hrow.
    + apply overlap_count_length.
    + apply overlapping_keywords_in.
    + unfold _generate_explanation. simpl. case_decide; simpl; [|lia].
      rewrite length_take. lia.
  - intros Hids. apply NoDup_alt. intros a b x Ha Hb.
    rewrite list_lookup_fmap in Ha, Hb.
    destruct (rs !! a) as [ra|] eqn:Hra; [|done].
    destruct (rs !! b) as [rb|] eqn:Hrb; [|done].
    simpl in Ha, Hb.
    destruct (Hrec a ra Hra) as (ja & da & Hja & Hda & ->).
    destruct (Hrec b rb Hrb) as (jb & db & Hjb & Hdb & ->).
    simpl in Ha, Hb. injection Ha as Ha. injection Hb as Hb.
    assert (ja = jb) as ->.
    { eapply (NoDup_lookup _ _ _ _ Hids);
        rewrite list_lookup_fmap; [by rewrite Hda | rewrite Hdb].
      simpl. by rewrite Hb, <- Ha. }
    by eapply (NoDup_lookup _ _ _ _ Hnd).
Qed.

End ResultFacts.

(** ** [main.py]: from the files to a search *)

Section InitializeFacts.
Import Float32 CacheManager Utils Embedder VectorIndex SearchEngine.
Import EngineState Api.
Context `{SentenceTransformer} `{ArgSort} `{FlatSearch}.

Lemma blank_nonempty query : blank query = false → query ≠ ""%string.
Proof. by intros Hb ->. Qed.

(** X22. [initialize_search_engine] exits exactly when no document was
    found.  Over a cache of well-formed rows and documents with non-empty
    texts it returns an engine that holds the files, one embedding per
    file and the strategy asked for when it is available; and that
    engine answers: a valid request with an ASCII query that is not
    blank gets 200, with [min(top_k, n)] results from the brute-force
    scan and [top_k] results from the flat index. *)
Theorem initialize_search_engine_ready (files : list document)
    (db : cache_db) (use_faiss_flag faiss_available force : bool)
    (now : nat → string) :
  (initialize_search_engine files db use_faiss_flag faiss_available force
     now = Exit1 ↔ files = [])
  ∧ (files ≠ [] → cache_wf db →
     Forall (λ doc, content doc ≠ ""%string) files →
     ∃ e m,
       initialize_search_engine files db use_faiss_flag faiss_available
         force now = Ready e
       ∧ documents e = files
       ∧ use_faiss e = use_faiss_flag && faiss_available
       ∧ embeddings e = Some m ∧ length m = length files
       ∧ cache_wf (cache_manager e)
       ∧ (use_faiss e = true →
          ∃ index, faiss_index e = Some index
                   ∧ ntotal index = length files
                   ∧ d index = get_sentence_embedding_dimension)
       ∧ ∀ query top_k,
           request_valid query top_k = true → isascii query = true →
           blank query = false →
           ∃ rs, search_documents (Some e) query top_k = Ok200 rs
                 ∧ length rs
                   = if use_faiss e then Z.to_nat top_k
                     else Nat.min (Z.to_nat top_k) (length files)).
Proof.
  unfold initialize_search_engine, load_documents. cbv zeta.
  set (e0 := set_documents (init use_faiss_flag faiss_available db) files).
  split.
  - case_decide as Hn.
    + split; [|done]. intros _. by destruct files.
    + split; [|by intros ->].
      destruct (generate_embeddings e0 force now) as [[[]|x] e1]; [|done].
      by destruct (build_vector_index e1).
  - intros Hne Hwf Hdocs.
    rewrite decide_False by (by destruct files).
    destruct (generate_embeddings_ok e0 force now Hwf Hne Hdocs)
      as (e1 & l & -> & Em & Hl & Hs & Hd & Hf & Hi & Hwf').
    simpl in Hl, Hd, Hf, Hi.
    assert (Forall (λ row, length row = get_sentence_embedding_dimension)
              (np_array l)) as Hshape by (by apply np_array_shape).
    assert (length (np_array l) = length files) as Hlen
      by (unfold np_array; by rewrite length_map).
    unfold build_vector_index. rewrite Em, Hf.
    destruct (use_faiss_flag && faiss_available) eqn:Ef.
    + (* the flat index *)
      set (index := {| d := length (hd [] (normalize_embeddings (np_array l)));
                       xb := normalize_embeddings (np_array l) |}).
      assert (ntotal index = length files) as Hnt.
      { unfold ntotal, index. simpl.
        by rewrite normalize_embeddings_rows, length_map. }
      assert (d index = get_sentence_embedding_dimension) as Hdim.
      { unfold index. simpl.
        pose proof (normalize_embeddings_shape _ _ Hshape) as Hn.
        destruct (normalize_embeddings (np_array l)) as [|row rows] eqn:En.
        - exfalso. apply (f_equal length) in En.
          rewrite normalize_embeddings_rows, length_map, Hlen in En.
          by destruct files.
        - simpl. by inversion Hn. }
      exists (_build_faiss_index e1 (np_array l)), (np_array l).
      split_and!; try done.
      * intros _. by exists index.
      * intros query top_k Hv _ Hb. simpl.
        unfold search_documents. rewrite Hv, Hb. simpl.
        unfold request_valid in Hv.
        apply andb_true_iff in Hv as [_ Hk]. apply bool_decide_eq_true in Hk.
        assert (query ≠ ""%string) as Hq by (by apply blank_nonempty).
        assert (0 < top_k)%Z as Hpos by lia.
        assert (ntotal index
                ≤ length (documents (_build_faiss_index e1 (np_array l))))%nat
          as Hfit by (simpl; rewrite Hd, Hnt; done).
        assert (documents (_build_faiss_index e1 (np_array l)) ≠ [])
          as Hsome by (simpl; by rewrite Hd).
        destruct (search_faiss_path (_build_faiss_index e1 (np_array l))
                    (np_array l) index query top_k Em Hf eq_refl Hdim
                    Hfit Hsome Hq Hpos) as (rs & -> & Hrs & _).
        exists rs. simpl. by rewrite Hf.
    + (* the brute-force scan *)
      exists (_prepare_cosine_similarity e1 (np_array l)),
        (normalize_embeddings (np_array l)).
      split_and!; try done.
      * by rewrite normalize_embeddings_rows, length_map.
      * simpl. rewrite Hf. done.
      * intros query top_k Hv _ Hb. simpl.
        unfold search_documents. rewrite Hv, Hb. simpl.
        unfold request_valid in Hv.
        apply andb_true_iff in Hv as [_ Hk]. apply bool_decide_eq_true in Hk.
        assert (query ≠ ""%string) as Hq by (by apply blank_nonempty).
        assert (length (normalize_embeddings (np_array l))
                ≤ length (documents
                            (_prepare_cosine_similarity e1 (np_array l))))%nat
          as Hfit
          by (simpl; by rewrite normalize_embeddings_rows, length_map, Hd,
                Hlen).
        destruct (search_cosine_path
                    (_prepare_cosine_similarity e1 (np_array l))
                    (normalize_embeddings (np_array l)) query top_k
                    eq_refl Hf Hq
                    (normalize_embeddings_shape _ _ Hshape) Hfit)
          as (rs & -> & Hrs).
        exists rs. simpl. rewrite Hf. split; [done|]. rewrite Hrs.
        rewrite slice_to_nonneg by lia.
        by rewrite length_take, normalize_embeddings_rows, length_map, Hlen.
Qed.

End InitializeFacts.

(** ** A run on a cleared cache *)

Section ClearedCache.
Import Float32 CacheManager Utils Embedder SearchEngine.
Context `{SentenceTransformer}.

(** On documents of distinct [doc_id]s that have no row yet, the loop
    does what a forced run does. *)
Lemma generate_loop_no_rows now idx docs db :
  NoDup (map doc_id docs) →
  (∀ doc, doc ∈ docs → db !! doc_id doc = None) →
  generate_loop false now idx docs [] 0 0 db
  = generate_loop true now idx docs [] 0 0 db.
Proof.
  revert idx db. induction docs as [|doc rest IH]; intros idx db Hnd Hdb;
    [done|].
  apply NoDup_cons in Hnd as [Hid Hnd].
  rewrite !generate_loop_cons.
  rewrite check_cache_absent by (apply Hdb; left).
  destruct (embed_text (content doc)) as [emb|x]; [|done].
  rewrite IH; [done | done |].
  intros doc' Hin. unfold save_embedding. rewrite lookup_insert_ne.
  - apply Hdb. by right.
  - intros Heq. apply Hid. rewrite Heq.
    apply list_elem_of_fmap. eauto.
Qed.

(** X23. After [clear_cache] nothing is cached; a run over documents of
    distinct [doc_id]s and non-empty texts then misses every document,
    returns the vectors of the model, and leaves exactly one row per
    document, the same cache as a forced run. *)
Theorem generate_after_clear_cache (e : search_engine) (now : nat → string) :
  NoDup (map doc_id (documents e)) → documents e ≠ [] →
  Forall (λ doc, content doc ≠ ""%string) (documents e) →
  let e0 := set_cache e (clear_cache (cache_manager e)) in
  (∀ id text dim, check_cache (cache_manager e0) id text dim = OK None)
  ∧ total_cached_documents (cache_manager e0) = 0%nat
  ∧ ∃ db',
      generate_embeddings_list e0 false now
      = (OK (map (λ doc, encode (lower (content doc))) (documents e),
             0%nat, length (documents e)), db')
      ∧ generate_embeddings_list e0 true now
        = generate_embeddings_list e0 false now
      ∧ total_cached_documents db' = length (documents e)
      ∧ ∀ id, is_Some (db' !! id) ↔ id ∈ map doc_id (documents e).
Proof.
  intros Hnd Hne Hdocs e0.
  assert (cache_manager e0 = ∅) as Hdb by done.
  assert (documents e0 = documents e) as Hd by done.
  split_and!.
  - intros id text dim. apply check_cache_absent. by rewrite Hdb.
  - by rewrite Hdb.
  - unfold generate_embeddings_list. rewrite Hd, Hdb.
    rewrite !decide_False by (by destruct (documents e)).
    rewrite generate_loop_no_rows by done.
    destruct (generate_loop_forced now 0 (documents e) ∅ Hdocs)
      as (db' & Hrun & Hrows).
    exists db'. split; [done|]. split; [done|].
    assert (∀ id, is_Some (db' !! id) ↔ id ∈ map doc_id (documents e))
      as Hdom.
    { intros id. split.
      - intros Hid.
        destruct (decide (id ∈ map doc_id (documents e))) as [|Hout];
          [done|].
        rewrite (generate_loop_frame _ _ _ _ _ _ _ _ _ _ _ Hrun Hout)
          in Hid. by destruct Hid.
      - intros Hin. apply list_elem_of_fmap in Hin as (doc & -> & Hin).
        by apply Hrows. }
    split; [|done].
    unfold total_cached_documents. rewrite <- size_dom.
    assert (dom db' = list_to_set (map doc_id (documents e))) as ->.
    { apply set_eq. intros id.
      by rewrite elem_of_dom, elem_of_list_to_set. }
    rewrite size_list_to_set by done. by rewrite length_map.
Qed.

End ClearedCache.

(** ** The further properties on the sample documents *)

Section FurtherWitnesses.
Import Float32 CacheManager CacheMaintenance Utils Embedder EmbedderBatch.
Import VectorIndex SearchEngine EngineState Api ApiDocuments TextCleaning.
Local Open Scope R_scope.

(** The pattern of 1.0, from its four bytes. *)
Lemma frombuffer_then_tobytes_witness :
  frombuffer ["000"%byte; "000"%byte; "128"%byte; "063"%byte]
  = OK [Sample.one]
  ∧ tobytes [Sample.one]
    = ["000"%byte; "000"%byte; "128"%byte; "063"%byte].
Proof.
  assert (frombuffer ["000"%byte; "000"%byte; "128"%byte; "063"%byte]
          = OK [Sample.one]) as Hv by reflexivity.
  split; [exact Hv|].
  exact (proj1 (frombuffer_then_tobytes _ _ Hv)).
Defined.

Lemma search_cosine_top_k_witness :
  Forall (λ row, length row = length [1; 0]) [[1; 0]; [0; 1]]
  ∧ ∃ scores indices,
      @_search_cosine stable_argsort [[1; 0]; [0; 1]] [1; 0] 1
      = OK (scores, indices)
      ∧ NoDup indices ∧ length scores = length indices.
Proof.
  assert (Forall (λ row, length row = length [1; 0]) [[1; 0]; [0; 1]])
    as Hm by (repeat constructor).
  split; [exact Hm|].
  destruct (@search_cosine_top_k stable_argsort [[1; 0]; [0; 1]] [1; 0] 1
              Hm) as (scores & indices & Hc & Hnd & _ & Hl & _).
  exists scores, indices. split; [exact Hc|]. split; [exact Hnd | exact Hl].
Defined.

Lemma get_document_after_load_witness :
  Sample.docs ≠ []
  ∧ "doc_002"%string ∈ map doc_id Sample.docs
  ∧ ∃ doc,
      get_document
        (Some (load_documents_indexed
                 (IndexedEngine (init false true ∅) ∅) Sample.docs).1)
        "doc_002"
      = Document200 doc
      ∧ doc_id doc = "doc_002"%string.
Proof.
  assert (Sample.docs ≠ []) as Hne by discriminate.
  assert ("doc_002"%string ∈ map doc_id Sample.docs) as Hin
    by (right; left).
  split; [exact Hne|]. split; [exact Hin|].
  destruct (proj2 (get_document_after_load
                     (IndexedEngine (init false true ∅) ∅) Sample.docs
                     "doc_002" Hne) Hin)
    as (j & doc & Hg & _ & Hid & _).
  exists doc. split; [exact Hg | exact Hid].
Defined.

Lemma get_document_after_empty_reload_witness :
  Sample.docs ≠ []
  ∧ "doc_001"%string ∈ map doc_id Sample.docs
  ∧ get_document
      (Some (load_documents_indexed
               (load_documents_indexed
                  (IndexedEngine (init false true ∅) ∅) Sample.docs).1
               []).1)
      "doc_001"
    = DocumentRaised (IndexError "list index out of range").
Proof.
  assert (Sample.docs ≠ []) as Hne by discriminate.
  assert ("doc_001"%string ∈ map doc_id Sample.docs) as Hin by left.
  split; [exact Hne|]. split; [exact Hin|].
  exact (proj1 (proj2 (get_document_after_empty_reload
                         (IndexedEngine (init false true ∅) ∅) Sample.docs
                         "doc_001" Hne)) Hin).
Defined.

Lemma list_documents_pages_witness :
  (1 ≤ 1 ≤ 1000)%Z ∧ (0 ≤ 1)%Z
  ∧ ∃ l,
      list_documents
        (Some (load_documents (init false true ∅) Sample.docs).1) 1 1
      = Listing200 l
      ∧ listing_total l = 2%nat ∧ listing_returned l = 1%nat.
Proof.
  assert (1 ≤ 1 ≤ 1000)%Z as Hl by lia.
  assert (0 ≤ 1)%Z as Ho by lia.
  split; [exact Hl|]. split; [exact Ho|].
  destruct (list_documents_pages
              (load_documents (init false true ∅) Sample.docs).1 1 1 Hl Ho)
    as (l & Hp & Ht & _ & Hr & _).
  exists l. split; [exact Hp|]. split; [exact Ht | exact Hr].
Defined.

Lemma embed_documents_spec_witness :
  ["Hello"%string; ""%string] ≠ []
  ∧ ∃ rows,
      @embed_documents stub_model ["Hello"%string; ""%string] = OK rows
      ∧ length rows = 2%nat.
Proof.
  assert (["Hello"%string; ""%string] ≠ []) as Hne by discriminate.
  split; [exact Hne|].
  destruct (proj2 (@embed_documents_spec stub_model
                     ["Hello"%string; ""%string]) Hne)
    as (rows & Hr & Hl & _).
  exists rows. split; [exact Hr | exact Hl].
Defined.

Lemma generate_embeddings_aligned_witness :
  ∃ e',
    @generate_embeddings stub_model
      (load_documents (init false true ∅) Sample.docs).1 false Sample.now
    = (OK (), e')
    ∧ total_documents (@get_stats stub_model e') = 2%nat
    ∧ embeddings_shape (@get_stats stub_model e') = Some (2%nat, 2%nat).
Proof.
  destruct (@generate_embeddings_ok stub_model
              (load_documents (init false true ∅) Sample.docs).1
              false Sample.now cache_wf_empty)
    as (e' & l & Hg & _);
    [discriminate | repeat constructor; discriminate |].
  destruct (@generate_embeddings_aligned stub_model _ e' false Sample.now
              Hg)
    as (l' & h & m & _ & _ & _ & _ & _ & _ & _ & _ & Ht & _ & Hs).
  exists e'. split; [exact Hg|]. split; [exact Ht | exact Hs].
Defined.

Lemma generate_embeddings_forced_witness :
  let e := (load_documents (init false true ∅) Sample.docs).1 in
  documents e ≠ []
  ∧ Forall (λ doc, content doc ≠ ""%string) (documents e)
  ∧ ∃ db',
      @generate_embeddings_list stub_model e true Sample.now
      = (OK ([[0%N; Sample.one]; [Sample.one; 0%N]], 0%nat, 2%nat), db').
Proof.
  intros e.
  assert (documents e ≠ []) as Hne by discriminate.
  assert (Forall (λ doc, content doc ≠ ""%string) (documents e)) as Hdocs
    by (repeat constructor; discriminate).
  split; [exact Hne|]. split; [exact Hdocs|].
  destruct (@generate_embeddings_forced stub_model e Sample.now Hne Hdocs)
    as (db' & Hrun & _).
  exists db'. exact Hrun.
Defined.

Lemma generate_embeddings_failure_witness :
  let e := (load_documents (init false true ∅)
              [Document "a" "a.txt" "first text" 10;
               Document "b" "b.txt" "" 0]).1 in
  ∃ e',
    @generate_embeddings stub_model e true Sample.now
    = (Err (ValueError "Input text must be a non-empty string"), e')
    ∧ is_Some (cache_manager e' !! "a"%string).
Proof.
  intros e.
  destruct (proj2 (proj2 (@generate_embeddings_failure stub_model e true
                            Sample.now))
              [Document "a" "a.txt" "first text" 10]
              (Document "b" "b.txt" "" 0) [] eq_refl)
    as (e' & Hg & Hrows);
    [repeat constructor; discriminate | reflexivity |].
  exists e'. split; [exact Hg|].
  apply (Hrows (Document "a" "a.txt" "first text" 10)). left.
Defined.

Lemma build_vector_index_again_witness :
  let e := Engine true Sample.docs (Some [[3; 4]; [0; 0]]) None ∅ in
  ∃ e1, build_vector_index e = OK e1 ∧ build_vector_index e1 = OK e1.
Proof.
  intros e. exists (_build_faiss_index e [[3; 4]; [0; 0]]).
  assert (build_vector_index e
          = OK (_build_faiss_index e [[3; 4]; [0; 0]])) as Hb
    by reflexivity.
  split; [exact Hb|].
  destruct (proj2 (build_vector_index_again e) _ Hb)
    as (_ & _ & _ & Hfaiss & _).
  exact (proj2 (Hfaiss eq_refl)).
Defined.

Lemma search_results_structure_witness :
  let m := [[1; 0]; [0; 1]] in
  let e := Engine false Sample.docs (Some m) None ∅ in
  embeddings e = Some m ∧ use_faiss e = false
  ∧ "neural networks"%string ≠ ""%string
  ∧ Forall (λ row, length row = 2%nat) m
  ∧ (length m ≤ length (documents e))%nat
  ∧ isascii "neural networks" = true
  ∧ Forall (λ doc, isascii (content doc) = true) (documents e)
  ∧ NoDup (map doc_id (documents e))
  ∧ ∃ rs,
      @search stub_model stable_argsort stable_flat_search e
        "neural networks" 5 = OK rs
      ∧ map rank rs = seq 1 (length rs)
      ∧ NoDup (map result_doc_id rs).
Proof.
  intros m e.
  assert ("neural networks"%string ≠ ""%string) as Hq by discriminate.
  assert (Forall (λ row, length row = 2%nat) m) as Hm
    by (repeat constructor).
  assert (length m ≤ length (documents e))%nat as Hl by (simpl; lia).
  assert (NoDup (map doc_id (documents e))) as Hnd by compute_done.
  assert (isascii "neural networks" = true) as Haq by reflexivity.
  assert (Forall (λ doc, isascii (content doc) = true) (documents e))
    as Had by (repeat constructor).
  split; [reflexivity|]. split; [reflexivity|]. split; [exact Hq|].
  split; [exact Hm|]. split; [exact Hl|]. split; [exact Haq|].
  split; [exact Had|]. split; [exact Hnd|].
  destruct (@search_results_structure stub_model stable_argsort
              stable_flat_search e m "neural networks" 5 eq_refl eq_refl
              Hq Hm Hl Haq Had) as (rs & Hs & Hr & _ & _ & Hids).
  exists rs. split; [exact Hs|]. split; [exact Hr | exact (Hids Hnd)].
Defined.

Lemma initialize_search_engine_ready_witness :
  Sample.docs ≠ [] ∧ cache_wf ∅
  ∧ Forall (λ doc, content doc ≠ ""%string) Sample.docs
  ∧ request_valid "neural networks" 5 = true
  ∧ isascii "neural networks" = true
  ∧ blank "neural networks" = false
  ∧ ∃ e rs,
      @initialize_search_engine stub_model Sample.docs ∅ false true false
        Sample.now = Ready e
      ∧ @search_documents stub_model stable_argsort stable_flat_search
          (Some e) "neural networks" 5 = Ok200 rs
      ∧ length rs = 2%nat.
Proof.
  assert (Sample.docs ≠ []) as Hne by discriminate.
  assert (Forall (λ doc, content doc ≠ ""%string) Sample.docs) as Hdocs
    by (repeat constructor; discriminate).
  assert (request_valid "neural networks" 5 = true) as Hv by reflexivity.
  assert (blank "neural networks" = false) as Hb by reflexivity.
  split; [exact Hne|]. split; [exact cache_wf_empty|].
  split; [exact Hdocs|]. split; [exact Hv|]. split; [reflexivity|].
  split; [exact Hb|].
  destruct (proj2 (@initialize_search_engine_ready stub_model
                     stable_argsort stable_flat_search Sample.docs ∅
                     false true false Sample.now)
              Hne cache_wf_empty Hdocs)
    as (e & m & Hi & _ & Hu & _ & _ & _ & _ & Hsearch).
  destruct (Hsearch "neural networks"%string 5%Z Hv eq_refl Hb)
    as (rs & Hs & Hl).
  exists e, rs. split; [exact Hi|]. split; [exact Hs|].
  rewrite Hl, Hu. reflexivity.
Defined.

Lemma generate_after_clear_cache_witness :
  let e := (load_documents (init false true ∅) Sample.docs).1 in
  NoDup (map doc_id (documents e)) ∧ documents e ≠ []
  ∧ Forall (λ doc, content doc ≠ ""%string) (documents e)
  ∧ ∃ db',
      @generate_embeddings_list stub_model
        (set_cache e (clear_cache (cache_manager e))) false Sample.now
      = (OK ([[0%N; Sample.one]; [Sample.one; 0%N]], 0%nat, 2%nat), db')
      ∧ total_cached_documents db' = 2%nat.
Proof.
  intros e.
  assert (NoDup (map doc_id (documents e))) as Hnd by compute_done.
  assert (documents e ≠ []) as Hne by discriminate.
  assert (Forall (λ doc, content doc ≠ ""%string) (documents e)) as Hdocs
    by (repeat constructor; discriminate).
  split; [exact Hnd|]. split; [exact Hne|]. split; [exact Hdocs|].
  destruct (@generate_after_clear_cache stub_model e Sample.now Hnd Hne
              Hdocs) as (_ & _ & db' & Hrun & _ & Ht & _).
  exists db'. split; [exact Hrun | exact Ht].
Defined.

(** Three letters with an acute accent, two bytes each. *)
Lemma get_text_preview_spec_witness :
  let text := String "195" (String "169" (String "195" (String "169"
                (String "195" (String "169" EmptyString))))) in
  (2 < len text)%nat
  ∧ len (get_text_preview text 4) = 3%nat
  ∧ get_text_preview text 4 = text
  ∧ len (get_text_preview text 2) = 5%nat.
Proof.
  intros text.
  assert (2 < len text)%nat as Hl by (vm_compute; lia).
  assert (len text ≤ 4)%nat as Hs by (vm_compute; lia).
  pose proof (proj1 (proj2 (get_text_preview_spec text 4)) Hs) as Hsame.
  split; [exact Hl|]. split; [rewrite Hsame; reflexivity|].
  split; [exact Hsame|].
  exact (proj2 (proj2 (proj2
           (proj2 (proj2 (get_text_preview_spec text 2)) Hl)))).
Defined.

Lemma clean_text_spec_witness :
  isascii "  Hello <b>World</b>  " = true
  ∧ clean_text "  Hello <b>World</b>  " = "hello world"%string
  ∧ Forall (λ c, is_upper c = false)
      (list_ascii_of_string (clean_text "  Hello <b>World</b>  ")).
Proof.
  assert (isascii "  Hello <b>World</b>  " = true) as Ha by reflexivity.
  split; [exact Ha|]. split; [reflexivity|].
  exact (proj1 (clean_text_spec "  Hello <b>World</b>  " Ha)).
Defined.

Lemma extract_keywords_spec_witness :
  isascii "Deep Learning" = true
  ∧ extract_keywords_min (lower "Deep Learning") 3
    = extract_keywords_min "Deep Learning" 3.
Proof.
  assert (isascii "Deep Learning" = true) as Ha by reflexivity.
  split; [exact Ha|].
  exact (proj2 (extract_keywords_spec "Deep Learning" 3 Ha)).
Defined.

End FurtherWitnesses.
